(** * VirtualCoffee beverages API: the store of [app/main.py]

    A shallow embedding of the beverage store of
    [VirtualCoffe/drinksApi/app/main.py] and the properties of its
    handlers.

    - Python [str] values are lists of characters.  The character type is
      the 8-bit [ascii], read as the code points U+0000..U+00FF; on that
      range [str.lower] and [str.strip] are the tables given below.
    - Python [float] values are IEEE-754 binary64 numbers, taken from the
      Standard Library's [SpecFloat] with [prec = 53] and [emax = 1024].
    - Python [int] values (identifiers, the counter) are [Z].
    - The module-level globals [beverages_db] and [next_id] are the two
      fields of an explicit [store]; every handler takes the store and
      returns its answer together with the store it leaves behind. *)

From Stdlib Require Import ZArith List Bool Ascii String Lia.
From Stdlib Require Import QArith Qabs.
From Stdlib Require Import Sorting.Sorted.
From Stdlib Require Import Floats.SpecFloat.
Import ListNotations.

Open Scope Z_scope.

(* ================================================================== *)
(** * Strings *)

Definition str : Type := list ascii.

(** A literal, written as a Rocq string. *)
Definition py (s : string) : str := list_ascii_of_string s.

Definition ord (c : ascii) : Z := Z.of_N (N_of_ascii c).
Definition chr (n : Z) : ascii := ascii_of_N (Z.to_N n).

(** [c.isspace()]: TAB, LF, VT, FF, CR, the separators FS, GS, RS, US,
    SPACE, and in the upper half NEL and NO-BREAK SPACE. *)
Definition isspace (c : ascii) : bool :=
  let n := ord c in
  ((9 <=? n) && (n <=? 13)) || ((28 <=? n) && (n <=? 32))
  || (n =? 133) || (n =? 160).

(** The cased capitals below U+0100: A..Z, and U+00C0..U+00DE without the
    multiplication sign U+00D7. *)
Definition isupper (c : ascii) : bool :=
  let n := ord c in
  ((65 <=? n) && (n <=? 90))
  || ((192 <=? n) && (n <=? 222) && negb (n =? 215)).

Definition lower_char (c : ascii) : ascii :=
  if isupper c then chr (ord c + 32) else c.

(** [s.lower()] *)
Definition lower (s : str) : str := map lower_char s.

Fixpoint lstrip (s : str) : str :=
  match s with
  | [] => []
  | c :: s' => if isspace c then lstrip s' else s
  end.

Definition rstrip (s : str) : str := rev (lstrip (rev s)).

(** [s.strip()] *)
Definition strip (s : str) : str := rstrip (lstrip s).

(** [len(s)] *)
Definition len (s : str) : Z := Z.of_nat (List.length s).

Definition ascii_eqb (a b : ascii) : bool := (ord a =? ord b).

(** [s == t] *)
Fixpoint str_eqb (s t : str) : bool :=
  match s, t with
  | [], [] => true
  | a :: s', b :: t' => ascii_eqb a b && str_eqb s' t'
  | _, _ => false
  end.

(** Truthiness of a string: [if s:] *)
Definition truthy (s : str) : bool :=
  match s with [] => false | _ :: _ => true end.

(* ================================================================== *)
(** * Floats *)

Definition float : Type := spec_float.

Definition prec : Z := 53.
Definition emax : Z := 1024.

(** A well-formed binary64 value. *)
Definition is_float (x : float) : Prop := valid_binary prec emax x = true.

(** [x < y], [x <= y]; both are false as soon as one side is NaN. *)
Definition flt (x y : float) : bool := SFltb x y.
Definition fle (x y : float) : bool := SFleb x y.
Definition fgt (x y : float) : bool := SFltb y x.
Definition fge (x y : float) : bool := SFleb y x.

(** The double nearest to [(-1)^s * k / d]; this is what a decimal literal
    denotes and what [strtod] returns. *)
Definition nearest_float (s : bool) (k : Z) (d : positive) : float :=
  match k with
  | Zpos p => SFdiv prec emax (S754_finite s p 0) (S754_finite false d 0)
  | _ => S754_zero s
  end.

(** The literal [n/d] for positive [n], and the integer literals used by
    the validators. *)
Definition dec (n d : positive) : float := nearest_float false (Zpos n) d.
Definition f0 : float := S754_zero false.
Definition f100 : float := dec 100 1.

(** The integer nearest to [n / d], ties to the even one ([0 <= n],
    [0 < d]). *)
Definition round_half_even_div (n d : Z) : Z :=
  let q := n / d in
  let r := n mod d in
  match 2 * r ?= d with
  | Lt => q
  | Gt => q + 1
  | Eq => if Z.even q then q else q + 1
  end.

(** The integer nearest to [100 * m * 2^e], ties to even. *)
Definition centi (m : positive) (e : Z) : Z :=
  if 0 <=? e then 100 * Zpos m * 2 ^ e
  else round_half_even_div (100 * Zpos m) (2 ^ (- e)).

(** [round(x, 2)].  CPython rounds the exact value of [x] to two decimals,
    ties to even, and converts that decimal back to the nearest double;
    zeros, infinities and NaN are returned as they are. *)
Definition round2 (x : float) : float :=
  match x with
  | S754_finite s m e => nearest_float s (centi m e) 100
  | _ => x
  end.

(** The exact value of a finite float, for stating bounds. *)
Definition F2Q (x : float) : Q :=
  match x with
  | S754_finite s m e =>
      let v := if 0 <=? e then Qmake (Zpos m * 2 ^ e) 1
               else Qmake (Zpos m) (Z.to_pos (2 ^ (- e))) in
      if s then Qopp v else v
  | _ => 0%Q
  end.

(* ================================================================== *)
(** * Data model *)

(** The request body of POST and PUT: the fields of the model [Beverage].
    The same record carries the raw candidate before validation and the
    validated model handed to a handler. *)
Record Beverage : Type := mkBeverage {
  bev_name : str;
  bev_size : str;
  bev_price : float
}.

(** The request body of PATCH: the model [BeverageUpdate], every field
    defaulting to [None]. *)
Record BeverageUpdate : Type := mkBeverageUpdate {
  upd_name : option str;
  upd_size : option str;
  upd_price : option float
}.

(** An entry of [beverages_db]: the dict with keys ["id"], ["name"],
    ["size"], ["price"], which is also the shape [BeverageResponse]. *)
Record BeverageResponse : Type := mkResponse {
  id : Z;
  name : str;
  size : str;
  price : float
}.

(** The two globals. *)
Record store : Type := mkStore {
  beverages_db : list BeverageResponse;
  next_id : Z
}.

Definition initial_store : store := mkStore [] 1.

(** Failures.  A body that fails model validation is answered by the
    framework with the list of the fields' errors, in field order; the
    handlers raise [HTTPException] with status 400 (a duplicate name) or
    404 (nothing found). *)
Inductive field_error : Type :=
  | EmptyName      (* the name: too short, too long, or blank *)
  | InvalidSize
  | InvalidPrice.

Inductive error : Type :=
  | ValidationError (es : list field_error)
  | ConflictError                    (* DuplicateName, status 400 *)
  | NotFoundError.                   (* status 404 *)

Inductive result (A : Type) : Type :=
  | Ok (a : A)
  | Err (e : error).
Arguments Ok {A} a.
Arguments Err {A} e.

(* ================================================================== *)
(** * Validation of the models *)

(** [@field_validator('name')] of [Beverage]. *)
Definition name_must_not_be_empty (v : str) : field_error + str :=
  if negb (truthy v) || str_eqb (strip v) [] then inl EmptyName
  else inr (strip v).

(** [@field_validator('price')] of [Beverage]. *)
Definition price_must_be_positive (v : float) : field_error + float :=
  if fle v f0 then inl InvalidPrice
  else if fgt v f100 then inl InvalidPrice
  else inr (round2 v).

(** [Field(min_length=1, max_length=100)] on a string. *)
Definition name_constraints (v : str) : bool :=
  (1 <=? len v) && (len v <=? 100).

(** [Field(pattern="^(small|medium|large)$")] *)
Definition size_constraints (v : str) : bool :=
  str_eqb v (py "small") || str_eqb v (py "medium") || str_eqb v (py "large").

(** [Field(gt=0, le=100)] on a float. *)
Definition price_constraints (v : float) : bool :=
  fgt v f0 && fle v f100.

(** One field of [Beverage]: the [Field] constraints first, then the
    field's validator on the value that passed them. *)
Definition Beverage_name (v : str) : field_error + str :=
  if name_constraints v then name_must_not_be_empty v else inl EmptyName.

Definition Beverage_size (v : str) : field_error + str :=
  if size_constraints v then inr v else inl InvalidSize.

Definition Beverage_price (v : float) : field_error + float :=
  if price_constraints v then price_must_be_positive v else inl InvalidPrice.

Definition errors_of {A : Type} (r : field_error + A) : list field_error :=
  match r with inl e => [e] | inr _ => [] end.

(** Construction of a [Beverage] from a body: every field is validated,
    the errors of all fields are reported together. *)
Definition Beverage_validate (c : Beverage) : list field_error + Beverage :=
  match Beverage_name (bev_name c),
        Beverage_size (bev_size c),
        Beverage_price (bev_price c) with
  | inr n, inr s, inr p => inr (mkBeverage n s p)
  | rn, rs, rp => inl (errors_of rn ++ errors_of rs ++ errors_of rp)
  end.

(** One optional field of [BeverageUpdate]: [None] is accepted, a value
    has to meet the [Field] constraints.  The model has no validators. *)
Definition optional_field {A : Type} (ok : A -> bool) (e : field_error)
    (v : option A) : list field_error :=
  match v with
  | None => []
  | Some a => if ok a then [] else [e]
  end.

Definition BeverageUpdate_validate (u : BeverageUpdate)
    : list field_error + BeverageUpdate :=
  match optional_field name_constraints EmptyName (upd_name u)
        ++ optional_field size_constraints InvalidSize (upd_size u)
        ++ optional_field price_constraints InvalidPrice (upd_price u) with
  | [] => inr u
  | es => inl es
  end.

(* ================================================================== *)
(** * The handlers *)

(** The loop head shared by PUT, PATCH and DELETE,
    [for i, existing in enumerate(beverages_db):
       if existing["id"] == beverage_id: ...]
    whose body always leaves the function: the first index holding the
    identifier, with the entry found there. *)
Fixpoint find_id (beverage_id : Z) (db : list BeverageResponse)
    : option (nat * BeverageResponse) :=
  match db with
  | [] => None
  | existing :: rest =>
      if id existing =? beverage_id then Some (O, existing)
      else match find_id beverage_id rest with
           | Some (i, b) => Some (S i, b)
           | None => None
           end
  end.

(** [l[i] = x] for an index inside the list. *)
Fixpoint list_set {A : Type} (i : nat) (x : A) (l : list A) : list A :=
  match l, i with
  | [], _ => []
  | _ :: l', O => x :: l'
  | a :: l', S i' => a :: list_set i' x l'
  end.

(** [l.pop(i)] for an index inside the list (the popped entry is not
    used by the caller). *)
Fixpoint list_pop {A : Type} (i : nat) (l : list A) : list A :=
  match l, i with
  | [], _ => []
  | _ :: l', O => l'
  | a :: l', S i' => a :: list_pop i' l'
  end.

(** [reset_database()] *)
Definition reset_database (st : store) : store := mkStore [] 1.

(** [GET /menu] *)
Definition get_menu (size_ : option str) (min_price max_price : option float)
    (st : store) : list BeverageResponse :=
  let filtered := beverages_db st in
  let filtered :=
    match size_ with
    | Some s =>
        if truthy s then filter (fun b => str_eqb (size b) s) filtered
        else filtered
    | None => filtered
    end in
  let filtered :=
    match min_price with
    | Some lo => filter (fun b => fge (price b) lo) filtered
    | None => filtered
    end in
  let filtered :=
    match max_price with
    | Some hi => filter (fun b => fle (price b) hi) filtered
    | None => filtered
    end in
  filtered.

(** [GET /menu/{name}] *)
Definition get_beverage_by_name (name_ : str) (st : store)
    : result BeverageResponse :=
  let name_lower := strip (lower name_) in
  match find (fun beverage => str_eqb (lower (name beverage)) name_lower)
             (beverages_db st) with
  | Some beverage => Ok beverage
  | None => Err NotFoundError
  end.

(** [POST /menu] *)
Definition add_beverage (beverage : Beverage) (st : store)
    : result BeverageResponse * store :=
  let name_lower := lower (bev_name beverage) in
  if existsb (fun existing => str_eqb (lower (name existing)) name_lower)
             (beverages_db st)
  then (Err ConflictError, st)
  else
    let new_beverage :=
      mkResponse (next_id st) (bev_name beverage) (bev_size beverage)
                 (bev_price beverage) in
    (Ok new_beverage,
     mkStore (beverages_db st ++ [new_beverage]) (next_id st + 1)).

(** [PUT /menu/{beverage_id}] *)
Definition update_beverage (beverage_id : Z) (beverage : Beverage)
    (st : store) : result BeverageResponse * store :=
  match find_id beverage_id (beverages_db st) with
  | Some (i, existing) =>
      let name_lower := lower (bev_name beverage) in
      if existsb (fun other =>
                    negb (id other =? beverage_id)
                    && str_eqb (lower (name other)) name_lower)
                 (beverages_db st)
      then (Err ConflictError, st)
      else
        let updated :=
          mkResponse beverage_id (bev_name beverage) (bev_size beverage)
                     (bev_price beverage) in
        (Ok updated,
         mkStore (list_set i updated (beverages_db st)) (next_id st))
  | None => (Err NotFoundError, st)
  end.

(** [PATCH /menu/{beverage_id}].  The entry found is the dict held by
    the list, so the three assignments change the list's entry. *)
Definition partial_update_beverage (beverage_id : Z) (update : BeverageUpdate)
    (st : store) : result BeverageResponse * store :=
  match find_id beverage_id (beverages_db st) with
  | Some (i, existing) =>
      let existing :=
        match upd_name update with
        | Some n => mkResponse (id existing) (strip n) (size existing)
                               (price existing)
        | None => existing
        end in
      let existing :=
        match upd_size update with
        | Some s => mkResponse (id existing) (name existing) s
                               (price existing)
        | None => existing
        end in
      let existing :=
        match upd_price update with
        | Some p => mkResponse (id existing) (name existing) (size existing)
                               (round2 p)
        | None => existing
        end in
      (Ok existing,
       mkStore (list_set i existing (beverages_db st)) (next_id st))
  | None => (Err NotFoundError, st)
  end.

(** [DELETE /menu/{beverage_id}] *)
Definition delete_beverage (beverage_id : Z) (st : store)
    : result unit * store :=
  match find_id beverage_id (beverages_db st) with
  | Some (i, _) =>
      (Ok tt, mkStore (list_pop i (beverages_db st)) (next_id st))
  | None => (Err NotFoundError, st)
  end.

(** [DELETE /menu] *)
Definition clear_all_beverages (st : store) : store := reset_database st.

(* ================================================================== *)
(** * The operations of the store

    A request reaches its handler only with a body that the model
    accepted; otherwise the list of field errors is the answer and the
    handler does not run. *)

Definition with_model {A B : Type} (v : list field_error + A)
    (handler : A -> store -> result B * store) (st : store)
    : result B * store :=
  match v with
  | inl es => (Err (ValidationError es), st)
  | inr a => handler a st
  end.

Definition create (c : Beverage) : store -> result BeverageResponse * store :=
  with_model (Beverage_validate c) add_beverage.

Definition replace (beverage_id : Z) (c : Beverage)
    : store -> result BeverageResponse * store :=
  with_model (Beverage_validate c) (update_beverage beverage_id).

Definition patch (beverage_id : Z) (u : BeverageUpdate)
    : store -> result BeverageResponse * store :=
  with_model (BeverageUpdate_validate u) (partial_update_beverage beverage_id).

Definition delete (beverage_id : Z) : store -> result unit * store :=
  delete_beverage beverage_id.

Definition reset : store -> store := clear_all_beverages.

Definition list_ := get_menu.

Definition getByName := get_beverage_by_name.

(* ================================================================== *)
(** * Requests and runs *)

Inductive request : Type :=
  | List_ (size_ : option str) (min_price max_price : option float)
  | GetByName (name_ : str)
  | Create (c : Beverage)
  | Replace (beverage_id : Z) (c : Beverage)
  | Patch (beverage_id : Z) (u : BeverageUpdate)
  | Delete (beverage_id : Z)
  | Reset.

Inductive response : Type :=
  | Records (bs : list BeverageResponse)
  | Record_ (b : BeverageResponse)
  | Created (b : BeverageResponse)       (* status 201 *)
  | Done                                 (* no record in the answer *)
  | Failed (e : error).

Definition answer {A : Type} (f : A -> response) (r : result A) : response :=
  match r with
  | Ok a => f a
  | Err e => Failed e
  end.

Definition step (rq : request) (st : store) : response * store :=
  match rq with
  | List_ s lo hi => (Records (list_ s lo hi st), st)
  | GetByName n => (answer Record_ (getByName n st), st)
  | Create c => let (r, st') := create c st in (answer Created r, st')
  | Replace i c => let (r, st') := replace i c st in (answer Record_ r, st')
  | Patch i u => let (r, st') := patch i u st in (answer Record_ r, st')
  | Delete i => let (r, st') := delete i st in (answer (fun _ => Done) r, st')
  | Reset => (Done, reset st)
  end.

(** A run answers the requests one after the other; its log keeps every
    answer in order. *)
Fixpoint run (rqs : list request) (st : store) : list response * store :=
  match rqs with
  | [] => ([], st)
  | rq :: rest =>
      let (a, st1) := step rq st in
      let (log, st2) := run rest st1 in
      (a :: log, st2)
  end.

(** The identifiers handed out along a run, in creation order. *)
Fixpoint created_ids (log : list response) : list Z :=
  match log with
  | [] => []
  | Created b :: rest => id b :: created_ids rest
  | _ :: rest => created_ids rest
  end.

Definition is_reset (rq : request) : bool :=
  match rq with Reset => true | _ => false end.

Definition is_created (a : response) : bool :=
  match a with Created _ => true | _ => false end.

Definition is_patch (rq : request) : bool :=
  match rq with Patch _ _ => true | _ => false end.

(* ================================================================== *)
(** * Predicates on stores and filters *)

(** The names of the collection, compared as the handlers compare them. *)
Definition lowered_names (db : list BeverageResponse) : list str :=
  map (fun b => lower (name b)) db.

Definition names_unique (st : store) : Prop :=
  NoDup (lowered_names (beverages_db st)).

Definition ids_unique (st : store) : Prop :=
  NoDup (map id (beverages_db st)).

(** Every identifier of the collection was handed out by the counter. *)
Definition ids_below_counter (st : store) : Prop :=
  Forall (fun b => id b < next_id st) (beverages_db st).

Definition holds_id (beverage_id : Z) (st : store) : Prop :=
  exists b, In b (beverages_db st) /\ id b = beverage_id.

(** A record passes a filter that is given, and any filter that is not. *)
Definition passes {A : Type} (test : A -> bool) (filter_ : option A) : bool :=
  match filter_ with
  | Some a => test a
  | None => true
  end.

Definition satisfies (size_ : option str) (min_price max_price : option float)
    (b : BeverageResponse) : bool :=
  passes (fun s => str_eqb (size b) s) size_
  && passes (fun lo => fge (price b) lo) min_price
  && passes (fun hi => fle (price b) hi) max_price.

(** The size filter as [GET /menu] reads it: an empty string is no
    filter. *)
Definition given_size (size_ : option str) : option str :=
  match size_ with
  | Some s => if truthy s then Some s else None
  | None => None
  end.

(** Two names that differ at most in case and in surrounding white space. *)
Definition same_name (s t : str) : Prop :=
  lower (strip s) = lower (strip t).

(* ================================================================== *)
(** * Sample data *)

Definition latte : Beverage := mkBeverage (py "Latte") (py "small") (dec 5 2).
Definition mocha : Beverage := mkBeverage (py "Mocha") (py "large") (dec 4 1).

(** The store after [POST latte], and after [POST latte; POST mocha]. *)
Definition one_drink : store := snd (create latte initial_store).
Definition two_drinks : store := snd (create mocha one_drink).

Definition flat_white : Beverage :=
  mkBeverage (py "Flat White") (py "medium") (dec 7 2).
Definition cortado : Beverage :=
  mkBeverage (py "Cortado") (py "small") (dec 3 1).

(** Three creates, the second record deleted, a create refused for its
    name, one more create. *)
Definition session : list request :=
  [Create latte; Create mocha; Create flat_white; Delete 2; Create latte;
   Create cortado].

(** PATCH bodies that carry a name only. *)
Definition rename (n : string) : BeverageUpdate :=
  mkBeverageUpdate (Some (py n)) None None.

(* ================================================================== *)
(** * The health endpoint and further predicates *)

(** The answer of [GET /health]. *)
Record Health : Type := mkHealth {
  status : str;
  service : str;
  beverages_count : Z
}.

(** [GET /health] *)
Definition health_check (st : store) : Health :=
  mkHealth (py "healthy") (py "beverages-api")
           (Z.of_nat (List.length (beverages_db st))).

(** Every size of the collection is one of the three the models accept. *)
Definition sizes_valid (st : store) : Prop :=
  Forall (fun b => size_constraints (size b) = true) (beverages_db st).

(** No name of the collection starts or ends with white space. *)
Definition names_stripped (st : store) : Prop :=
  Forall (fun b => strip (name b) = name b) (beverages_db st).

(** The collection lists its records by ascending identifier. *)
Definition ids_sorted (st : store) : Prop :=
  StronglySorted Z.lt (map id (beverages_db st)).

(** A price that is a whole number of cents from 0.00 to 100.00, as a
    double. *)
Definition in_cents (p : float) : Prop :=
  exists k : Z, 0 <= k <= 10000 /\ p = nearest_float false k 100.

Definition prices_in_cents (st : store) : Prop :=
  Forall (fun b => in_cents (price b)) (beverages_db st).

(** The prices a request carries are doubles. *)
Definition carries_floats (rq : request) : Prop :=
  match rq with
  | Create c | Replace _ c => is_float (bev_price c)
  | Patch _ u =>
      match upd_price u with
      | Some p => is_float p
      | None => True
      end
  | _ => True
  end.

(** The answers of a log that report a deletion; in a run without reset
    these are the successful [DELETE /menu/{id}]. *)
Fixpoint count_done (log : list response) : nat :=
  match log with
  | [] => O
  | Done :: rest => S (count_done rest)
  | _ :: rest => count_done rest
  end.

(** The first and the last character of a string, when it has any, are
    not white space. *)
Definition trimmed (s : str) : Prop :=
  match s with
  | [] => True
  | c :: _ => isspace c = false /\ isspace (last s c) = false
  end.

(** Does the record answer to the name as [GET /menu/{name}] compares? *)
Definition answers_to (name_ : str) (b : BeverageResponse) : bool :=
  str_eqb (lower (name b)) (strip (lower name_)).

(** The record PATCH leaves in the place of [x]. *)
Definition patched (u : BeverageUpdate) (x : BeverageResponse)
    : BeverageResponse :=
  mkResponse (id x)
    (match upd_name u with Some n => strip n | None => name x end)
    (match upd_size u with Some s => s | None => size x end)
    (match upd_price u with Some p => round2 p | None => price x end).

(** The record POST and PUT build from a validated body. *)
Definition record_of (i : Z) (b : Beverage) : BeverageResponse :=
  mkResponse i (bev_name b) (bev_size b) (bev_price b).

(* ================================================================== *)
(** * Strings: equality, case and white space *)

Lemma ord_inj (a b : ascii) : ord a = ord b -> a = b.
Proof.
  unfold ord. intros H.
  apply N2Z.inj in H.
  rewrite <- (ascii_N_embedding a), <- (ascii_N_embedding b).
  now f_equal.
Qed.

Lemma ascii_eqb_eq (a b : ascii) : ascii_eqb a b = true <-> a = b.
Proof.
  unfold ascii_eqb. rewrite Z.eqb_eq. split.
  - apply ord_inj.
  - now intros ->.
Qed.

Lemma str_eqb_eq (s t : str) : str_eqb s t = true <-> s = t.
Proof.
  revert t. induction s as [|a s IH]; intros [|b t]; simpl;
    try (split; [discriminate | discriminate]); try tauto.
  rewrite andb_true_iff, ascii_eqb_eq, IH. split.
  - now intros [-> ->].
  - intros E. now inversion E.
Qed.

Lemma str_eqb_refl (s : str) : str_eqb s s = true.
Proof. now apply str_eqb_eq. Qed.

Lemma str_eqb_neq (s t : str) : str_eqb s t = false <-> s <> t.
Proof.
  rewrite <- str_eqb_eq. destruct (str_eqb s t); split; congruence.
Qed.

(** Lower-casing never turns a character into white space, nor white
    space into anything else. *)
Lemma isspace_lower_char (c : ascii) : isspace (lower_char c) = isspace c.
Proof.
  destruct c as [[] [] [] [] [] [] [] []]; reflexivity.
Qed.

Lemma lower_char_idem (c : ascii) : lower_char (lower_char c) = lower_char c.
Proof.
  destruct c as [[] [] [] [] [] [] [] []]; reflexivity.
Qed.

Lemma lower_idem (s : str) : lower (lower s) = lower s.
Proof.
  unfold lower. rewrite map_map. apply map_ext. apply lower_char_idem.
Qed.

Lemma lstrip_lower (s : str) : lstrip (lower s) = lower (lstrip s).
Proof.
  induction s as [|c s IH]; simpl; [reflexivity|].
  rewrite isspace_lower_char. now destruct (isspace c).
Qed.

Lemma lower_rev (s : str) : lower (rev s) = rev (lower s).
Proof. unfold lower. apply map_rev. Qed.

Lemma rstrip_lower (s : str) : rstrip (lower s) = lower (rstrip s).
Proof.
  unfold rstrip. now rewrite <- lower_rev, lstrip_lower, lower_rev.
Qed.

(** [s.lower().strip()] and [s.strip().lower()] are the same string. *)
Lemma strip_lower (s : str) : strip (lower s) = lower (strip s).
Proof. unfold strip. now rewrite lstrip_lower, rstrip_lower. Qed.

Lemma lstrip_spaces (l s : str) :
  forallb isspace l = true -> lstrip (l ++ s) = lstrip s.
Proof.
  induction l as [|c l IH]; simpl; [reflexivity|].
  intros H. apply andb_true_iff in H as [Hc Hl]. rewrite Hc. auto.
Qed.

Lemma lstrip_app (s r : str) :
  lstrip (s ++ r) = match lstrip s with
                    | [] => lstrip r
                    | _ :: _ => lstrip s ++ r
                    end.
Proof.
  induction s as [|c s IH]; simpl.
  - now destruct (lstrip r).
  - destruct (isspace c); [exact IH|reflexivity].
Qed.

Lemma rstrip_spaces (s r : str) :
  forallb isspace r = true -> rstrip (s ++ r) = rstrip s.
Proof.
  intros H. unfold rstrip. rewrite rev_app_distr, lstrip_spaces;
    [reflexivity|].
  rewrite forallb_forall in *. intros c Hc. apply H. now apply in_rev.
Qed.

(** White space around a string does not survive [strip]. *)
Lemma strip_padded (l s r : str) :
  forallb isspace l = true -> forallb isspace r = true ->
  strip (l ++ s ++ r) = strip s.
Proof.
  intros Hl Hr. unfold strip. rewrite lstrip_spaces by exact Hl.
  rewrite lstrip_app. destruct (lstrip s) as [|c t] eqn:Hs.
  - assert (Hall : forall x, forallb isspace x = true -> lstrip x = []).
    { induction x as [|a x IH]; simpl; [reflexivity|].
      intros H. apply andb_true_iff in H as [-> H]. auto. }
    rewrite (Hall r Hr). reflexivity.
  - now rewrite rstrip_spaces.
Qed.

(** The queries the round trip speaks of: the name itself or its
    lower-cased form, between any white space. *)
Lemma same_name_padded (l n r : str) :
  forallb isspace l = true -> forallb isspace r = true ->
  same_name (l ++ n ++ r) n /\ same_name (l ++ lower n ++ r) n.
Proof.
  intros Hl Hr. unfold same_name. rewrite !strip_padded by assumption.
  split; [reflexivity|]. now rewrite strip_lower, lower_idem.
Qed.

(* ================================================================== *)
(** * Lists: searching, overwriting, popping *)

Lemma existsb_false_iff {A : Type} (p : A -> bool) (l : list A) :
  existsb p l = false <-> forall x, In x l -> p x = false.
Proof.
  induction l as [|a l IH]; simpl.
  - tauto.
  - rewrite orb_false_iff, IH. split.
    + intros [Ha Hl] x [<-|Hx]; auto.
    + intros H. split; auto.
Qed.

Lemma find_app_last {A : Type} (p : A -> bool) (l : list A) (x : A) :
  existsb p l = false -> p x = true -> find p (l ++ [x]) = Some x.
Proof.
  induction l as [|a l IH]; simpl; intros Hl Hx.
  - now rewrite Hx.
  - apply orb_false_iff in Hl as [Ha Hl]. rewrite Ha. auto.
Qed.

Lemma filter_filter {A : Type} (p q : A -> bool) (l : list A) :
  filter q (filter p l) = filter (fun a => p a && q a) l.
Proof.
  induction l as [|a l IH]; simpl; [reflexivity|].
  destruct (p a); simpl; [destruct (q a)|]; now rewrite IH.
Qed.

Lemma filter_true {A : Type} (l : list A) : filter (fun _ => true) l = l.
Proof. induction l as [|a l IH]; simpl; congruence. Qed.

Lemma Forall_list_set {A : Type} (P : A -> Prop) (i : nat) (x : A)
    (l : list A) :
  Forall P l -> P x -> Forall P (list_set i x l).
Proof.
  revert i. induction l as [|a l IH]; intros [|i] Hl Hx; simpl; auto;
    inversion Hl; subst; constructor; auto.
Qed.

Lemma Forall_list_pop {A : Type} (P : A -> Prop) (i : nat) (l : list A) :
  Forall P l -> Forall P (list_pop i l).
Proof.
  revert i. induction l as [|a l IH]; intros [|i] Hl; simpl; auto;
    inversion Hl; subst; auto.
Qed.

Lemma In_list_set {A : Type} (i : nat) (x y : A) (l : list A) :
  In y (list_set i x l) -> y = x \/ In y l.
Proof.
  revert i. induction l as [|a l IH]; intros [|i]; simpl; try tauto.
  - intros [<-|H]; auto.
  - intros [<-|H]; auto. apply IH in H. tauto.
Qed.

Lemma In_list_pop {A : Type} (i : nat) (y : A) (l : list A) :
  In y (list_pop i l) -> In y l.
Proof.
  revert i. induction l as [|a l IH]; intros [|i]; simpl; try tauto.
  intros [<-|H]; auto. apply IH in H. tauto.
Qed.

Lemma map_list_set_same {A B : Type} (f : A -> B) (i : nat) (x y : A)
    (l : list A) :
  nth_error l i = Some y -> f x = f y -> map f (list_set i x l) = map f l.
Proof.
  revert i. induction l as [|a l IH]; intros [|i]; simpl; try discriminate.
  - intros E Hf. inversion E. subst. now rewrite Hf.
  - intros E Hf. f_equal. now apply IH.
Qed.

Lemma NoDup_snoc {A : Type} (l : list A) (x : A) :
  NoDup l -> ~ In x l -> NoDup (l ++ [x]).
Proof.
  intros Hl Hx. apply NoDup_app; [exact Hl|repeat constructor; intros []|].
  intros a Ha [<-|[]]. now apply Hx.
Qed.

(** Overwriting one entry keeps the keys distinct when the new key is
    the key of no other entry. *)
Lemma NoDup_map_list_set {A B : Type} (f : A -> B) (i : nat) (x : A)
    (l : list A) :
  NoDup (map f l) ->
  (forall j y, j <> i -> nth_error l j = Some y -> f y <> f x) ->
  NoDup (map f (list_set i x l)).
Proof.
  revert i. induction l as [|a l IH]; intros i Hl Hx; simpl in *.
  - destruct i; constructor.
  - inversion Hl as [|? ? Ha Hl']. subst. destruct i as [|i]; simpl.
    + constructor; [|exact Hl'].
      intros Hin. apply in_map_iff in Hin as (y & Hy & Hin).
      apply In_nth_error in Hin as [j Hj].
      apply (Hx (S j) y); [discriminate|exact Hj|exact Hy].
    + constructor.
      * intros Hin. apply in_map_iff in Hin as (y & Hy & Hin).
        apply In_list_set in Hin as [->|Hin].
        -- apply (Hx O a); [discriminate|reflexivity|now symmetry].
        -- apply Ha. apply in_map_iff. now exists y.
      * apply IH; [exact Hl'|]. intros j y Hj Hn.
        apply (Hx (S j) y); [congruence|exact Hn].
Qed.

Lemma NoDup_map_list_pop {A B : Type} (f : A -> B) (i : nat) (l : list A) :
  NoDup (map f l) -> NoDup (map f (list_pop i l)).
Proof.
  revert i. induction l as [|a l IH]; intros i Hl; simpl in *.
  - destruct i; constructor.
  - inversion Hl as [|? ? Ha Hl']. subst. destruct i as [|i]; simpl; auto.
    constructor; [|now apply IH].
    intros Hin. apply in_map_iff in Hin as (y & Hy & Hin).
    apply In_list_pop in Hin. apply Ha. apply in_map_iff. now exists y.
Qed.

(* ================================================================== *)
(** * Looking a record up by its identifier *)

Lemma find_id_None (beverage_id : Z) (db : list BeverageResponse) :
  find_id beverage_id db = None <->
  forall b, In b db -> id b <> beverage_id.
Proof.
  induction db as [|a db IH]; simpl.
  - split; [intros _ b []|reflexivity].
  - destruct (Z.eqb_spec (id a) beverage_id) as [E|E].
    + split; [discriminate|]. intros H. exfalso. apply (H a); auto.
    + destruct (find_id beverage_id db) as [[i b]|].
      * split; [discriminate|]. intros H.
        assert (Hn : Some (i, b) = None); [|discriminate Hn].
        apply IH. intros x Hx. apply H. now right.
      * split; [|reflexivity]. intros _ b [<-|Hb]; [exact E|].
        now apply (proj1 IH).
Qed.

Lemma find_id_Some (beverage_id : Z) (db : list BeverageResponse)
    (i : nat) (b : BeverageResponse) :
  find_id beverage_id db = Some (i, b) ->
  nth_error db i = Some b /\ id b = beverage_id.
Proof.
  revert i. induction db as [|a db IH]; simpl; intros i; [discriminate|].
  destruct (Z.eqb_spec (id a) beverage_id) as [E|E].
  - intros H. inversion H. subst. auto.
  - destruct (find_id beverage_id db) as [[j x]|]; [|discriminate].
    intros H. inversion H. subst. simpl. now apply IH.
Qed.

(** With distinct identifiers, the entry found under an identifier is the
    only one that carries it. *)
Lemma other_index_other_id (db : list BeverageResponse) (i j : nat)
    (x y : BeverageResponse) :
  NoDup (map id db) ->
  nth_error db i = Some x -> nth_error db j = Some y -> j <> i ->
  id y <> id x.
Proof.
  intros Hnd Hi Hj Hne E. apply Hne.
  apply (proj1 (NoDup_nth_error (map id db)) Hnd).
  - rewrite length_map. apply nth_error_Some. congruence.
  - rewrite (map_nth_error id _ _ Hj), (map_nth_error id _ _ Hi).
    now rewrite E.
Qed.

(* ================================================================== *)
(** * Floats: comparison and rounding *)

Lemma digits2_pos_bound (m : positive) : Zpos m < 2 ^ Zpos (digits2_pos m).
Proof.
  induction m as [m IH|m IH|]; simpl digits2_pos.
  - rewrite Pos2Z.inj_succ, Z.pow_succ_r by lia. lia.
  - rewrite Pos2Z.inj_succ, Z.pow_succ_r by lia. lia.
  - reflexivity.
Qed.

(** The mantissa of a well-formed double has at most 53 bits. *)
Lemma is_float_mantissa (s : bool) (m : positive) (e : Z) :
  is_float (S754_finite s m e) -> Zpos m < 2 ^ 53.
Proof.
  unfold is_float, valid_binary, bounded, canonical_mantissa, fexp.
  intros H. apply andb_true_iff in H as [H _]. apply Z.eqb_eq in H.
  pose proof (digits2_pos_bound m) as Hd.
  assert (Hle : Zpos (digits2_pos m) <= 53) by (unfold prec in H; lia).
  eapply Z.lt_le_trans; [exact Hd|].
  apply Z.pow_le_mono_r; lia.
Qed.

Lemma compare_cont_le (m k : positive) :
  match Pos.compare_cont Eq m k with Lt | Eq => true | Gt => false end = true ->
  (m <= k)%positive.
Proof.
  unfold Pos.le, Pos.compare.
  destruct (Pos.compare_cont Eq m k); congruence.
Qed.

Lemma SFcompare_swap (x y : float) :
  SFcompare y x = match SFcompare x y with
                  | Some c => Some (CompOpp c)
                  | None => None
                  end.
Proof.
  destruct x as [[]|[]| |[] mx ex], y as [[]|[]| |[] my ey]; try reflexivity;
    cbn [SFcompare]; rewrite (Z.compare_antisym ex ey);
    destruct (ex ?= ey); cbn [CompOpp]; try reflexivity;
    fold (Pos.compare mx my); fold (Pos.compare my mx);
    rewrite (Pos.compare_antisym mx my); destruct (Pos.compare mx my);
    reflexivity.
Qed.

Lemma f100_eq : f100 = S754_finite false 7036874417766400 (-46).
Proof. vm_compute. reflexivity. Qed.

(** Rounding a quotient to the nearest integer stays within one half. *)
Lemma round_half_even_div_near (n d : Z) :
  0 <= n -> 0 < d ->
  let k := round_half_even_div n d in
  0 <= k /\ Z.abs (2 * n - 2 * k * d) <= d.
Proof.
  intros Hn Hd. unfold round_half_even_div.
  pose proof (Z.div_mod n d ltac:(lia)) as Hdm.
  pose proof (Z.mod_pos_bound n d Hd) as Hr.
  pose proof (Z.div_pos n d Hn Hd) as Hq.
  set (q := n / d) in *. set (r := n mod d) in *.
  assert (Hsame : 2 * n - 2 * q * d = 2 * r) by (rewrite Hdm; ring).
  assert (Hnext : 2 * n - 2 * (q + 1) * d = 2 * r - 2 * d)
    by (rewrite Hdm; ring).
  clearbody q r.
  destruct (Z.compare_spec (2 * r) d) as [Hc|Hc|Hc];
    try destruct (Z.even q); rewrite ?Hsame, ?Hnext;
    clear Hsame Hnext Hdm; split; lia.
Qed.

(* ================================================================== *)
(** * What the models accept *)

Lemma Beverage_validate_inr (c b : Beverage) :
  Beverage_validate c = inr b ->
  Beverage_name (bev_name c) = inr (bev_name b)
  /\ Beverage_size (bev_size c) = inr (bev_size b)
  /\ Beverage_price (bev_price c) = inr (bev_price b).
Proof.
  unfold Beverage_validate.
  destruct (Beverage_name (bev_name c)), (Beverage_size (bev_size c)),
    (Beverage_price (bev_price c)); try discriminate.
  intros E. inversion E. now subst.
Qed.

Lemma Beverage_name_inr (v n : str) :
  Beverage_name v = inr n -> n = strip v /\ n <> [] /\ 1 <= len v <= 100.
Proof.
  unfold Beverage_name, name_constraints, name_must_not_be_empty.
  destruct (1 <=? len v) eqn:Hlo; [|discriminate].
  destruct (len v <=? 100) eqn:Hhi; [|discriminate]. simpl.
  destruct (negb (truthy v) || str_eqb (strip v) []) eqn:Hb; [discriminate|].
  intros E. inversion E. subst n.
  apply orb_false_iff in Hb as [_ Hb]. apply str_eqb_neq in Hb.
  repeat split; auto; lia.
Qed.

Lemma validated_name (c b : Beverage) :
  Beverage_validate c = inr b -> bev_name b = strip (bev_name c).
Proof.
  intros H. apply Beverage_validate_inr in H as [H _].
  now apply Beverage_name_inr in H.
Qed.

(** What the price field lets through: a positive finite double that the
    comparison with 100 puts at or below it; what comes out is
    [round(v, 2)]. *)
Lemma Beverage_price_inr (p p' : float) :
  Beverage_price p = inr p' ->
  p' = round2 p
  /\ exists m e,
       p = S754_finite false m e
       /\ (e < -46 \/ (e = -46 /\ Zpos m <= 7036874417766400)).
Proof.
  unfold Beverage_price, price_must_be_positive.
  destruct (price_constraints p) eqn:Hc; [|discriminate].
  destruct (fle p f0); [discriminate|].
  destruct (fgt p f100); [discriminate|].
  intros E. injection E as <-. split; [reflexivity|].
  unfold price_constraints in Hc. apply andb_true_iff in Hc as [Hlo Hhi].
  unfold fgt, f0, SFltb in Hlo. unfold fle, SFleb in Hhi.
  rewrite f100_eq in Hhi.
  destruct p as [s|s| |s m e]; try discriminate Hlo.
  - destruct s; discriminate.
  - assert (Hs : s = false) by (destruct s; [discriminate Hlo|reflexivity]).
    subst s. exists m, e. split; [reflexivity|].
    cbn [SFcompare] in Hhi.
    destruct (e ?= -46) eqn:He; try discriminate Hhi.
    + apply Z.compare_eq in He. right. split; [exact He|].
      apply compare_cont_le in Hhi. exact Hhi.
    + left. now apply Z.compare_lt_iff in He.
Qed.

Lemma price_constraints_validator (p : float) :
  price_constraints p = true -> Beverage_price p = inr (round2 p).
Proof.
  unfold Beverage_price, price_must_be_positive. intros H. rewrite H.
  unfold price_constraints in H. apply andb_true_iff in H as [Hlo Hhi].
  unfold fgt, fle, SFltb, SFleb in *.
  rewrite (SFcompare_swap f0 p).
  rewrite (SFcompare_swap p f100) in |- *.
  destruct (SFcompare f0 p) as [[]|]; try discriminate Hlo.
  destruct (SFcompare p f100) as [[]|]; try discriminate Hhi; reflexivity.
Qed.

(** A PATCH body that the model accepts has a size and a price that the
    model of POST and PUT accepts as well, and the price is kept as that
    model keeps it; of the name only the length of the raw string has
    been looked at. *)
Lemma BeverageUpdate_validate_inr (u v : BeverageUpdate) :
  BeverageUpdate_validate u = inr v ->
  v = u
  /\ (forall n, upd_name u = Some n -> name_constraints n = true)
  /\ (forall s, upd_size u = Some s -> Beverage_size s = inr s)
  /\ (forall p, upd_price u = Some p -> Beverage_price p = inr (round2 p)).
Proof.
  unfold BeverageUpdate_validate. intros H.
  destruct (optional_field name_constraints EmptyName (upd_name u))
    as [|e1 l1] eqn:Hn; [|discriminate].
  destruct (optional_field size_constraints InvalidSize (upd_size u))
    as [|e2 l2] eqn:Hs; [|discriminate].
  destruct (optional_field price_constraints InvalidPrice (upd_price u))
    as [|e3 l3] eqn:Hp; [|discriminate].
  inversion H. subst v. clear H. unfold optional_field in *.
  split; [reflexivity|]. split; [|split].
  - intros n E. rewrite E in Hn.
    destruct (name_constraints n); [reflexivity|discriminate].
  - intros s E. rewrite E in Hs. unfold Beverage_size.
    destruct (size_constraints s); [reflexivity|discriminate].
  - intros p E. rewrite E in Hp. apply price_constraints_validator.
    destruct (price_constraints p); [reflexivity|discriminate].
Qed.

(* ================================================================== *)
(** * Prices *)

(** An accepted price is at most [100] as a number: [m <= 100 * 2^(-e)]. *)
Lemma accepted_mantissa (m : positive) (e : Z) :
  is_float (S754_finite false m e) ->
  e < -46 \/ (e = -46 /\ Zpos m <= 7036874417766400) ->
  Zpos m <= 100 * 2 ^ (- e).
Proof.
  intros Hf [He|[-> Hm]].
  - apply is_float_mantissa in Hf.
    assert (H47 : 2 ^ 47 <= 2 ^ (- e)) by (apply Z.pow_le_mono_r; lia).
    change (2 ^ 53) with (64 * 2 ^ 47) in Hf. lia.
  - change (2 ^ (- -46)) with 70368744177664. lia.
Qed.

(** The centi-units of an accepted price: at most 10000 and within one
    half of 100 times the price. *)
Lemma centi_accepted (m : positive) (e : Z) :
  e < 0 -> Zpos m <= 100 * 2 ^ (- e) ->
  let k := centi m e in
  0 <= k <= 10000
  /\ Z.abs (2 * (100 * Zpos m) - 2 * k * 2 ^ (- e)) <= 2 ^ (- e).
Proof.
  intros He Hm. unfold centi.
  destruct (0 <=? e) eqn:H0; [apply Z.leb_le in H0; lia|].
  assert (HD : 0 < 2 ^ (- e)) by (apply Z.pow_pos_nonneg; lia).
  destruct (round_half_even_div_near (100 * Zpos m) (2 ^ (- e))
              ltac:(lia) HD) as [Hk Hnear].
  set (k := round_half_even_div (100 * Zpos m) (2 ^ (- e))) in *.
  set (D := 2 ^ (- e)) in *. clearbody k D.
  split; [|exact Hnear]. split; [exact Hk|].
  apply Z.abs_le in Hnear. nia.
Qed.

Lemma list_set_holds_new {A : Type} (k : nat) (x r : A) (l : list A) :
  nth_error l k = Some r -> In x (list_set k x l).
Proof.
  revert k. induction l as [|a l IH]; intros [|k]; simpl; try discriminate.
  - intros _. now left.
  - intros H. right. now apply IH.
Qed.

(** C9.  The price field refuses 0 and 100.01 with the price error and
    lets 100 and 0.01 through unchanged; as part of a whole body given
    to create, the first two leave the store as it was and the last two
    put the record with that price into the collection.  Whatever double
    [p] the field lets through is, as a number, above 0 and at most 100;
    what is kept is [round(p, 2)], the double nearest to [k/100] for an
    integer [k] within one half of [100 * p]; and that is the price of
    the record in the collection: a create that succeeds with price [p]
    appends a record whose price is [round(p, 2)], it does succeed as
    soon as name and size are accepted and no stored name collides, and
    a replace that succeeds with price [p] leaves a record with price
    [round(p, 2)] in the collection under the identifier replaced. *)
Theorem price_validation (p p' : float) :
  is_float p ->
  Beverage_price p = inr p' ->
  (Beverage_price f0 = inl InvalidPrice
   /\ Beverage_price (dec 10001 100) = inl InvalidPrice
   /\ Beverage_price f100 = inr f100
   /\ Beverage_price (dec 1 100) = inr (dec 1 100))
  /\ (create (mkBeverage (py "Latte") (py "small") f0) initial_store
      = (Err (ValidationError [InvalidPrice]), initial_store)
      /\ create (mkBeverage (py "Latte") (py "small") (dec 10001 100))
                initial_store
         = (Err (ValidationError [InvalidPrice]), initial_store)
      /\ create (mkBeverage (py "Latte") (py "small") f100) initial_store
         = (Ok (mkResponse 1 (py "Latte") (py "small") f100),
            mkStore [mkResponse 1 (py "Latte") (py "small") f100] 2)
      /\ create (mkBeverage (py "Latte") (py "small") (dec 1 100))
                initial_store
         = (Ok (mkResponse 1 (py "Latte") (py "small") (dec 1 100)),
            mkStore [mkResponse 1 (py "Latte") (py "small") (dec 1 100)] 2))
  /\ (0 < F2Q p /\ F2Q p <= 100)%Q
  /\ p' = round2 p
  /\ (exists k : Z,
         0 <= k <= 10000
         /\ (Qabs (100 * F2Q p - inject_Z k) <= 1 # 2)%Q
         /\ p' = nearest_float false k 100)
  /\ (forall n s st r st',
         create (mkBeverage n s p) st = (Ok r, st') ->
         price r = round2 p
         /\ beverages_db st' = beverages_db st ++ [r])
  /\ (forall n s n' s' st,
         Beverage_name n = inr n' ->
         Beverage_size s = inr s' ->
         existsb (fun existing => str_eqb (lower (name existing)) (lower n'))
                 (beverages_db st) = false ->
         create (mkBeverage n s p) st
         = (Ok (mkResponse (next_id st) n' s' (round2 p)),
            mkStore (beverages_db st
                     ++ [mkResponse (next_id st) n' s' (round2 p)])
                    (next_id st + 1)))
  /\ (forall i n s st r st',
         replace i (mkBeverage n s p) st = (Ok r, st') ->
         price r = round2 p /\ id r = i /\ In r (beverages_db st')).
Proof.
  intros Hf Hp.
  split; [repeat split; vm_compute; reflexivity|].
  split; [repeat split; vm_compute; reflexivity|].
  pose proof (Beverage_price_inr p p' Hp) as [Hround _].
  assert (Hbody : forall n s b,
             Beverage_validate (mkBeverage n s p) = inr b ->
             bev_price b = round2 p).
  { intros n s b Hval.
    apply Beverage_validate_inr in Hval as (_ & _ & Hbp).
    change (Beverage_price p = inr (bev_price b)) in Hbp.
    rewrite Hp in Hbp. inversion Hbp. congruence. }
  assert (Hcreate : forall n s st r st',
             create (mkBeverage n s p) st = (Ok r, st') ->
             price r = round2 p
             /\ beverages_db st' = beverages_db st ++ [r]).
  { intros n s st r st'. unfold create, with_model.
    destruct (Beverage_validate (mkBeverage n s p)) as [es|b] eqn:Hval;
      [discriminate|].
    pose proof (Hbody n s b Hval) as Hb. unfold add_beverage.
    destruct (existsb _ (beverages_db st)); [discriminate|].
    intros E. inversion E. subst r st'. cbn [price beverages_db].
    split; [exact Hb|reflexivity]. }
  assert (Hcreated : forall n s n' s' st,
             Beverage_name n = inr n' ->
             Beverage_size s = inr s' ->
             existsb (fun existing =>
                        str_eqb (lower (name existing)) (lower n'))
                     (beverages_db st) = false ->
             create (mkBeverage n s p) st
             = (Ok (mkResponse (next_id st) n' s' (round2 p)),
                mkStore (beverages_db st
                         ++ [mkResponse (next_id st) n' s' (round2 p)])
                        (next_id st + 1))).
  { intros n s n' s' st Hn Hs Hex.
    unfold create, with_model, Beverage_validate.
    cbn [bev_name bev_size bev_price]. rewrite Hn, Hs, Hp.
    unfold add_beverage. cbn [bev_name bev_size bev_price].
    rewrite Hex, Hround. reflexivity. }
  assert (Hreplace : forall i n s st r st',
             replace i (mkBeverage n s p) st = (Ok r, st') ->
             price r = round2 p /\ id r = i /\ In r (beverages_db st')).
  { intros i n s st r st'. unfold replace, with_model.
    destruct (Beverage_validate (mkBeverage n s p)) as [es|b] eqn:Hval;
      [discriminate|].
    pose proof (Hbody n s b Hval) as Hb. unfold update_beverage.
    destruct (find_id i (beverages_db st)) as [[k x]|] eqn:Hfind;
      [|discriminate].
    destruct (existsb _ (beverages_db st)); [discriminate|].
    intros E. inversion E. subst r st'. cbn [price id beverages_db].
    apply find_id_Some in Hfind as [Hk _].
    split; [exact Hb|]. split; [reflexivity|].
    exact (list_set_holds_new k _ x _ Hk). }
  clear Hbody.
  apply Beverage_price_inr in Hp as (_ & m & e & Hpe & He).
  assert (Hnum : (0 < F2Q p /\ F2Q p <= 100)%Q
                 /\ exists k : Z,
                      0 <= k <= 10000
                      /\ (Qabs (100 * F2Q p - inject_Z k) <= 1 # 2)%Q
                      /\ p' = nearest_float false k 100).
  { clear Hcreate Hcreated Hreplace. subst p.
    pose proof (accepted_mantissa m e Hf He) as Hm.
    assert (Hneg : e < 0) by lia.
    destruct (centi_accepted m e Hneg Hm) as [Hk Hnear].
    assert (HD : 0 < 2 ^ (- e)) by (apply Z.pow_pos_nonneg; lia).
    assert (HF : F2Q (S754_finite false m e)
                 = Qmake (Zpos m) (Z.to_pos (2 ^ (- e)))).
    { unfold F2Q. destruct (0 <=? e) eqn:H0; [apply Z.leb_le in H0; lia|].
      reflexivity. }
    rewrite HF.
    pose proof (Z2Pos.id _ HD) as HP.
    set (D := Z.to_pos (2 ^ (- e))) in *.
    set (k := centi m e) in *.
    split.
    - split.
      + unfold Qlt. cbn [Qnum Qden]. lia.
      + unfold Qle. cbn [Qnum Qden]. rewrite HP.
        change (Qnum 100) with 100. change (Zpos (Qden 100)) with 1. lia.
    - exists k. split; [exact Hk|]. split; [|exact Hround].
      unfold Qle, Qabs, Qminus, Qplus, Qmult, Qopp, inject_Z.
      cbn [Qnum Qden]. rewrite ?Pos2Z.inj_mul, HP.
      change (Qnum 100) with 100. change (Zpos (Qden 100)) with 1.
      clearbody k D. clear HF HP Hround.
      set (E := 2 ^ (- e)) in *. clearbody E.
      replace (100 * Z.pos m * 1 + - k * (1 * E))
        with (100 * Z.pos m - k * E) by ring.
      replace (2 * (100 * Z.pos m) - 2 * k * E)
        with (2 * (100 * Z.pos m - k * E)) in Hnear by ring.
      lia. }
  destruct Hnum as [Hbounds Hk].
  repeat (split; [assumption|]). exact Hreplace.
Qed.

Lemma price_validation_witness :
  ((0 < F2Q (dec 4567 1000) /\ F2Q (dec 4567 1000) <= 100)%Q
   /\ dec 457 100 = round2 (dec 4567 1000))
  /\ price (mkResponse 1 (py "Latte") (py "small") (dec 457 100))
     = round2 (dec 4567 1000)
  /\ beverages_db
       (mkStore [mkResponse 1 (py "Latte") (py "small") (dec 457 100)] 2)
     = beverages_db initial_store
       ++ [mkResponse 1 (py "Latte") (py "small") (dec 457 100)].
Proof.
  pose proof (price_validation (dec 4567 1000) (dec 457 100)) as H.
  assert (Hf : is_float (dec 4567 1000)) by (vm_compute; reflexivity).
  assert (Hp : Beverage_price (dec 4567 1000) = inr (dec 457 100))
    by (vm_compute; reflexivity).
  destruct (H Hf Hp) as (_ & _ & Hb & Hr & _ & Hc & _).
  split; [exact (conj Hb Hr)|].
  apply (Hc (py "Latte") (py "small") initial_store).
  vm_compute. reflexivity.
Defined.

(* ================================================================== *)
(** * Listing *)

(** C7, as first stated, fails for the empty size: the only record of
    the store is of size [small], yet it is listed under [size = ""]. *)
Lemma list_empty_size_not_a_filter :
  list_ (Some []) None None one_drink
  <> filter (satisfies (Some []) None None) (beverages_db one_drink).
Proof. vm_compute. discriminate. Qed.

(** C7.  The listing is the collection, in its order, restricted to the
    records that pass every filter given; a size filter counts as given
    when it is a non-empty string, a price bound whenever it is present.
    Nothing else is ever returned, in particular no error. *)
Theorem list_is_filter (st : store) (size_ : option str)
    (min_price max_price : option float) :
  list_ size_ min_price max_price st
  = filter (satisfies (given_size size_) min_price max_price)
           (beverages_db st).
Proof.
  unfold list_, get_menu, satisfies, given_size.
  set (db := beverages_db st).
  assert (Hsize :
    match size_ with
    | Some s => if truthy s then filter (fun b => str_eqb (size b) s) db
                else db
    | None => db
    end
    = filter (fun b => passes (fun s => str_eqb (size b) s)
                         match size_ with
                         | Some s => if truthy s then Some s else None
                         | None => None
                         end) db).
  { destruct size_ as [s|]; [destruct (truthy s)|]; simpl;
      now rewrite ?filter_true. }
  rewrite Hsize. clear Hsize.
  destruct min_price as [lo|], max_price as [hi|]; simpl;
    rewrite ?filter_filter; apply filter_ext; intros b;
    now rewrite ?andb_assoc, ?andb_true_r.
Qed.

(** C10.  An empty size filter lists what no size filter lists. *)
Theorem list_empty_size_is_absent (st : store)
    (min_price max_price : option float) :
  list_ (Some []) min_price max_price st = list_ None min_price max_price st.
Proof. reflexivity. Qed.

(* ================================================================== *)
(** * Creation and names *)

Lemma create_Ok_inv (c : Beverage) (st st' : store) (r : BeverageResponse) :
  create c st = (Ok r, st') ->
  exists b,
    Beverage_validate c = inr b
    /\ existsb (fun existing =>
                  str_eqb (lower (name existing)) (lower (bev_name b)))
               (beverages_db st) = false
    /\ r = mkResponse (next_id st) (bev_name b) (bev_size b) (bev_price b)
    /\ st' = mkStore (beverages_db st ++ [r]) (next_id st + 1).
Proof.
  unfold create, with_model, add_beverage.
  destruct (Beverage_validate c) as [es|b]; [discriminate|].
  destruct (existsb _ _) eqn:Hex; [discriminate|].
  intros E. inversion E. subst. exists b. auto.
Qed.

(** C4.  In a store holding a record, a body that the model accepts and
    whose trimmed name is that record's name up to case is refused by
    create with the duplicate-name conflict, and the store stays as it
    was. *)
Theorem create_duplicate_name (st : store) (r : BeverageResponse)
    (c b : Beverage) :
  In r (beverages_db st) ->
  Beverage_validate c = inr b ->
  lower (strip (bev_name c)) = lower (name r) ->
  create c st = (Err ConflictError, st).
Proof.
  intros Hin Hval Hname.
  unfold create, with_model. rewrite Hval. unfold add_beverage.
  rewrite (validated_name _ _ Hval), Hname.
  assert (Hex : existsb (fun existing =>
                           str_eqb (lower (name existing)) (lower (name r)))
                        (beverages_db st) = true).
  { apply existsb_exists. exists r. split; [assumption|apply str_eqb_refl]. }
  now rewrite Hex.
Qed.

Lemma create_duplicate_name_witness :
  create (mkBeverage (py " LATTE ") (py "medium") (dec 3 1)) one_drink
  = (Err ConflictError, one_drink).
Proof.
  apply (create_duplicate_name one_drink
           (mkResponse 1 (py "Latte") (py "small") (dec 5 2))
           (mkBeverage (py " LATTE ") (py "medium") (dec 3 1))
           (mkBeverage (py "LATTE") (py "medium") (dec 3 1))).
  - vm_compute. left. reflexivity.
  - vm_compute. reflexivity.
  - vm_compute. reflexivity.
Defined.

(** C6.  After create accepted a body, looking its name up in any casing
    and with or without surrounding white space finds the record just
    created, whose name is the trimmed name of the body. *)
Theorem create_then_getByName (st st' : store) (c : Beverage)
    (r : BeverageResponse) (q : str) :
  create c st = (Ok r, st') ->
  same_name q (bev_name c) ->
  getByName q st' = Ok r /\ name r = strip (bev_name c).
Proof.
  intros Hcreate Hsame.
  apply create_Ok_inv in Hcreate as (b & Hval & Hex & Hr & Hst).
  pose proof (validated_name _ _ Hval) as Hn.
  assert (Hname : name r = strip (bev_name c)) by (subst r; exact Hn).
  split; [|exact Hname].
  unfold getByName, get_beverage_by_name.
  rewrite strip_lower, Hsame, <- Hn. subst st'. simpl.
  rewrite (find_app_last _ _ r Hex); [reflexivity|].
  subst r. simpl. apply str_eqb_refl.
Qed.

Lemma create_then_getByName_witness :
  getByName (py "  laTTe ") one_drink
  = Ok (mkResponse 1 (py "Latte") (py "small") (dec 5 2))
  /\ name (mkResponse 1 (py "Latte") (py "small") (dec 5 2))
     = strip (bev_name latte).
Proof.
  apply (create_then_getByName initial_store one_drink latte).
  - vm_compute. reflexivity.
  - vm_compute. reflexivity.
Defined.

(* ================================================================== *)
(** * Replacing under an identifier nobody holds *)

(** C8, as first stated, fails for a body the model refuses: no record
    of [two_drinks] holds 7, and PUT under 7 with an empty name is
    answered with the name error, not with the not-found error. *)
Lemma replace_missing_id_refused_body :
  ~ holds_id 7 two_drinks
  /\ replace 7 (mkBeverage [] (py "small") (dec 5 2)) two_drinks
     = (Err (ValidationError [EmptyName]), two_drinks)
  /\ fst (replace 7 (mkBeverage [] (py "small") (dec 5 2)) two_drinks)
     <> Err NotFoundError.
Proof.
  split; [|split].
  - intros (b & Hb & E). vm_compute in Hb.
    destruct Hb as [<-|[<-|[]]]; discriminate E.
  - vm_compute. reflexivity.
  - vm_compute. discriminate.
Qed.

(** C8.  When no record holds the identifier, replace with a body the
    model accepts fails with the not-found error, as the PUT handler
    does for whatever body it is run on; with a body the model refuses
    it fails with that body's field errors instead.  In every case the
    store is returned as it was, collection and counter alike. *)
Theorem replace_missing_id (st : store) (beverage_id : Z) (c : Beverage) :
  ~ holds_id beverage_id st ->
  update_beverage beverage_id c st = (Err NotFoundError, st)
  /\ replace beverage_id c st
     = (Err match Beverage_validate c with
            | inl es => ValidationError es
            | inr _ => NotFoundError
            end, st).
Proof.
  intros Hno.
  assert (Hfind : find_id beverage_id (beverages_db st) = None).
  { apply find_id_None. intros b Hb E. apply Hno. now exists b. }
  assert (Hput : forall b, update_beverage beverage_id b st
                           = (Err NotFoundError, st)).
  { intros b. unfold update_beverage. now rewrite Hfind. }
  split; [apply Hput|].
  unfold replace, with_model.
  destruct (Beverage_validate c) as [es|b]; [reflexivity|apply Hput].
Qed.

Lemma replace_missing_id_witness :
  update_beverage 7 mocha two_drinks = (Err NotFoundError, two_drinks)
  /\ replace 7 mocha two_drinks = (Err NotFoundError, two_drinks).
Proof.
  apply (replace_missing_id two_drinks 7 mocha).
  intros (b & Hb & E). vm_compute in Hb.
  destruct Hb as [<-|[<-|[]]]; discriminate E.
Defined.

(* ================================================================== *)
(** * The identifier counter *)

Lemma add_beverage_cases (b : Beverage) (st : store) :
  add_beverage b st = (Err ConflictError, st)
  \/ exists r,
       id r = next_id st
       /\ add_beverage b st
          = (Ok r, mkStore (beverages_db st ++ [r]) (next_id st + 1)).
Proof.
  unfold add_beverage. destruct (existsb _ _); [now left|right].
  eexists. split; [|reflexivity]. reflexivity.
Qed.

(** A create that fails, for whichever reason, returns the store it was
    given. *)
Lemma create_failed (c : Beverage) (st : store) (e : error) :
  fst (create c st) = Err e -> snd (create c st) = st.
Proof.
  unfold create, with_model.
  destruct (Beverage_validate c) as [es|b]; [reflexivity|].
  destruct (add_beverage_cases b st) as [->|(r & _ & ->)];
    [reflexivity|discriminate].
Qed.

Lemma ids_below_counter_weaken (db : list BeverageResponse) (n : Z) :
  Forall (fun b => id b < n) db -> Forall (fun b => id b < n + 1) db.
Proof. apply Forall_impl. intros b. lia. Qed.

(** One request other than the reset: the counter moves, by one, exactly
    when the answer is a created record, and that record carries the
    value the counter had. *)
Lemma step_counter (rq : request) (st : store) :
  is_reset rq = false ->
  ids_below_counter st ->
  ids_below_counter (snd (step rq st))
  /\ match fst (step rq st) with
     | Created b =>
         id b = next_id st /\ next_id (snd (step rq st)) = next_id st + 1
     | _ => next_id (snd (step rq st)) = next_id st
     end.
Proof.
  intros Hrq Hinv. unfold ids_below_counter in *.
  destruct rq as [s lo hi|n|c|i c|i u|i|]; simpl; try discriminate Hrq.
  - auto.
  - destruct (getByName n st); simpl; auto.
  - unfold create, with_model.
    destruct (Beverage_validate c) as [es|b]; simpl; [auto|].
    destruct (add_beverage_cases b st) as [->|(r & Hr & ->)]; simpl; [auto|].
    split; [|auto]. apply Forall_app. split.
    + now apply ids_below_counter_weaken.
    + constructor; [lia|constructor].
  - unfold replace, with_model.
    destruct (Beverage_validate c) as [es|b]; simpl; [auto|].
    unfold update_beverage.
    destruct (find_id i (beverages_db st)) as [[k x]|] eqn:Hfind;
      simpl; [|auto].
    destruct (existsb _ _); simpl; [auto|]. split; [|reflexivity].
    apply find_id_Some in Hfind as [Hnth Hid].
    apply Forall_list_set; [exact Hinv|]. simpl.
    apply nth_error_In in Hnth.
    rewrite Forall_forall in Hinv. specialize (Hinv x Hnth). lia.
  - unfold patch, with_model.
    destruct (BeverageUpdate_validate u) as [es|v]; simpl; [auto|].
    unfold partial_update_beverage.
    destruct (find_id i (beverages_db st)) as [[k x]|] eqn:Hfind;
      simpl; [|auto].
    split; [|reflexivity].
    apply find_id_Some in Hfind as [Hnth Hid].
    apply nth_error_In in Hnth.
    apply Forall_list_set; [exact Hinv|].
    rewrite Forall_forall in Hinv. specialize (Hinv x Hnth).
    destruct (upd_name v), (upd_size v), (upd_price v); simpl; exact Hinv.
  - unfold delete, delete_beverage.
    destruct (find_id i (beverages_db st)) as [[k x]|]; simpl; [|auto].
    split; [|reflexivity]. now apply Forall_list_pop.
Qed.

Lemma run_cons (rq : request) (rqs : list request) (st : store) :
  run (rq :: rqs) st
  = (fst (step rq st) :: fst (run rqs (snd (step rq st))),
     snd (run rqs (snd (step rq st)))).
Proof.
  simpl. destruct (step rq st) as [a st1]. simpl.
  now destruct (run rqs st1).
Qed.

Lemma run_counter (rqs : list request) (st : store) :
  forallb (fun rq => negb (is_reset rq)) rqs = true ->
  ids_below_counter st ->
  StronglySorted Z.lt (created_ids (fst (run rqs st)))
  /\ Forall (fun i => next_id st <= i) (created_ids (fst (run rqs st)))
  /\ next_id (snd (run rqs st))
     = next_id st + Z.of_nat (List.length (created_ids (fst (run rqs st))))
  /\ ids_below_counter (snd (run rqs st)).
Proof.
  revert st. induction rqs as [|rq rqs IH]; intros st Hrqs Hinv.
  - simpl. repeat split; auto; try constructor. lia.
  - simpl in Hrqs. apply andb_true_iff in Hrqs as [Hrq Hrqs].
    apply negb_true_iff in Hrq.
    destruct (step_counter rq st Hrq Hinv) as [Hinv1 Hstep].
    destruct (IH _ Hrqs Hinv1) as (Hsorted & Hlow & Hnext & Hinv2).
    rewrite run_cons. cbn [fst snd].
    set (st1 := snd (step rq st)) in *.
    set (log := fst (run rqs st1)) in *.
    destruct (fst (step rq st)) as [bs|b|b| |e]; cbn [created_ids];
      try (rewrite Hstep in Hlow, Hnext; repeat split; assumption).
    destruct Hstep as [Hid Hst1]. rewrite Hst1 in Hlow, Hnext.
    repeat split.
    + constructor; [exact Hsorted|].
      eapply Forall_impl; [|exact Hlow]. intros i. simpl. lia.
    + constructor; [lia|].
      eapply Forall_impl; [|exact Hlow]. intros i. simpl. lia.
    + rewrite Hnext. cbn [List.length]. lia.
    + exact Hinv2.
Qed.

(** C5, as first stated, fails across a reset: [DELETE /menu] puts the
    counter back to 1, and the next create hands out 1 a second time. *)
Lemma reset_reuses_identifiers :
  created_ids (fst (run [Create latte; Reset; Create mocha] initial_store))
  = [1; 1]
  /\ ~ StronglySorted Z.lt
        (created_ids
           (fst (run [Create latte; Reset; Create mocha] initial_store))).
Proof.
  split; [vm_compute; reflexivity|].
  vm_compute. intros H. inversion H as [|? ? _ Hlt].
  inversion Hlt as [|? ? Hlt1 _]. discriminate Hlt1.
Qed.

(** C5.  Along any run without a reset, started where every
    identifier of the collection is below the counter: the identifiers
    handed out by create are strictly increasing in creation order; each
    is above every identifier the collection held before the run, hence
    above those of records deleted since; the counter ends exactly as
    many steps higher as there were successful creates, so nothing else
    moves it; and a create that fails returns the store unchanged. *)
Theorem identifiers_increase (rqs : list request) (st : store) :
  forallb (fun rq => negb (is_reset rq)) rqs = true ->
  ids_below_counter st ->
  StronglySorted Z.lt (created_ids (fst (run rqs st)))
  /\ Forall (fun i => Forall (fun b => id b < i) (beverages_db st))
            (created_ids (fst (run rqs st)))
  /\ next_id (snd (run rqs st))
     = next_id st + Z.of_nat (List.length (created_ids (fst (run rqs st))))
  /\ (forall c e, fst (create c st) = Err e -> snd (create c st) = st).
Proof.
  intros Hrqs Hinv.
  destruct (run_counter rqs st Hrqs Hinv) as (Hsorted & Hlow & Hnext & _).
  repeat split; try assumption.
  - eapply Forall_impl; [|exact Hlow]. intros i Hi. simpl in Hi |- *.
    eapply Forall_impl; [|exact Hinv]. intros b Hb. simpl in Hb. lia.
  - intros c e. apply create_failed.
Qed.

Lemma identifiers_increase_witness :
  StronglySorted Z.lt (created_ids (fst (run session initial_store)))
  /\ Forall (fun i => Forall (fun b => id b < i) (beverages_db initial_store))
            (created_ids (fst (run session initial_store)))
  /\ next_id (snd (run session initial_store))
     = next_id initial_store
       + Z.of_nat (List.length
                     (created_ids (fst (run session initial_store))))
  /\ (forall c e, fst (create c initial_store) = Err e ->
                  snd (create c initial_store) = initial_store).
Proof.
  apply (identifiers_increase session initial_store).
  - vm_compute. reflexivity.
  - constructor.
Defined.

(** The run of [session] hands out 1, 2, 3 and then 4: the identifier 2,
    free again after the delete, is not given a second time, and the
    refused create costs no number. *)
Example session_ids :
  created_ids (fst (run session initial_store)) = [1; 2; 3; 4]
  /\ next_id (snd (run session initial_store)) = 5.
Proof. vm_compute. split; reflexivity. Qed.

(* ================================================================== *)
(** * The invariants of the collection *)

Lemma create_keeps_names_unique (c : Beverage) (st : store) :
  names_unique st -> names_unique (snd (create c st)).
Proof.
  unfold names_unique, create, with_model, add_beverage. intros Hu.
  destruct (Beverage_validate c) as [es|b]; [exact Hu|].
  destruct (existsb _ _) eqn:Hex; [exact Hu|]. simpl.
  unfold lowered_names. rewrite map_app. simpl. apply NoDup_snoc; [exact Hu|].
  intros Hin. apply in_map_iff in Hin as (y & Hy & Hin).
  rewrite existsb_false_iff in Hex. specialize (Hex y Hin).
  apply str_eqb_neq in Hex. now apply Hex.
Qed.

Lemma replace_keeps_names_unique (i : Z) (c : Beverage) (st : store) :
  ids_unique st -> names_unique st -> names_unique (snd (replace i c st)).
Proof.
  unfold names_unique, ids_unique, replace, with_model, update_beverage.
  intros Hid Hu.
  destruct (Beverage_validate c) as [es|b]; [exact Hu|].
  destruct (find_id i (beverages_db st)) as [[k x]|] eqn:Hfind; [|exact Hu].
  destruct (existsb _ _) eqn:Hex; [exact Hu|]. simpl.
  apply find_id_Some in Hfind as [Hk Hx].
  apply NoDup_map_list_set; [exact Hu|]. intros j y Hj Hy. simpl.
  rewrite existsb_false_iff in Hex.
  specialize (Hex y (nth_error_In _ _ Hy)).
  apply andb_false_iff in Hex as [Hex|Hex].
  - apply negb_false_iff, Z.eqb_eq in Hex. exfalso.
    apply (other_index_other_id _ _ _ _ _ Hid Hk Hy Hj). congruence.
  - now apply str_eqb_neq in Hex.
Qed.

Lemma delete_keeps_names_unique (i : Z) (st : store) :
  names_unique st -> names_unique (snd (delete i st)).
Proof.
  unfold names_unique, delete, delete_beverage. intros Hu.
  destruct (find_id i (beverages_db st)) as [[k x]|]; [|exact Hu].
  simpl. now apply NoDup_map_list_pop.
Qed.

Lemma reset_names_unique (st : store) : names_unique (reset st).
Proof. constructor. Qed.

(** Every request keeps the identifiers distinct. *)
Lemma step_keeps_ids_unique (rq : request) (st : store) :
  ids_below_counter st -> ids_unique st -> ids_unique (snd (step rq st)).
Proof.
  unfold ids_unique, ids_below_counter. intros Hlt Hid.
  destruct rq as [s lo hi|n|c|i c|i u|i|]; simpl; auto.
  - unfold create, with_model.
    destruct (Beverage_validate c) as [es|b]; simpl; [auto|].
    destruct (add_beverage_cases b st) as [->|(r & Hr & ->)]; simpl; [auto|].
    rewrite map_app. simpl. apply NoDup_snoc; [exact Hid|].
    intros Hin. apply in_map_iff in Hin as (y & Hy & Hin).
    rewrite Forall_forall in Hlt. specialize (Hlt y Hin). lia.
  - unfold replace, with_model.
    destruct (Beverage_validate c) as [es|b]; simpl; [auto|].
    unfold update_beverage.
    destruct (find_id i (beverages_db st)) as [[k x]|] eqn:Hfind;
      simpl; [|auto].
    destruct (existsb _ _); simpl; [auto|].
    apply find_id_Some in Hfind as [Hk Hx].
    now rewrite (map_list_set_same id _ _ x _ Hk).
  - unfold patch, with_model.
    destruct (BeverageUpdate_validate u) as [es|v]; simpl; [auto|].
    unfold partial_update_beverage.
    destruct (find_id i (beverages_db st)) as [[k x]|] eqn:Hfind;
      simpl; [|auto].
    apply find_id_Some in Hfind as [Hk Hx].
    rewrite (map_list_set_same id _ _ x _ Hk); [exact Hid|].
    now destruct (upd_name v), (upd_size v), (upd_price v).
  - unfold delete, delete_beverage.
    destruct (find_id i (beverages_db st)) as [[k x]|]; simpl; [|auto].
    now apply NoDup_map_list_pop.
  - constructor.
Qed.

(** Every request other than PATCH keeps the names distinct. *)
Lemma step_keeps_names_unique (rq : request) (st : store) :
  is_patch rq = false ->
  ids_unique st -> names_unique st -> names_unique (snd (step rq st)).
Proof.
  intros Hrq Hid Hu.
  destruct rq as [s lo hi|n|c|i c|i u|i|]; simpl; try discriminate Hrq.
  - exact Hu.
  - exact Hu.
  - pose proof (create_keeps_names_unique c st Hu) as H.
    now destruct (create c st).
  - pose proof (replace_keeps_names_unique i c st Hid Hu) as H.
    now destruct (replace i c st).
  - pose proof (delete_keeps_names_unique i st Hu) as H.
    now destruct (delete i st).
  - apply reset_names_unique.
Qed.

(* ================================================================== *)
(** * PATCH against the rules of POST and PUT *)

(** C1 fails on PATCH.  The store [two_drinks] has distinct names and
    distinct identifiers; PATCH of record 2 with the name ["latte"] is
    answered with the renamed record, and the collection is left with
    ["Latte"] and ["latte"]. *)
Theorem patch_breaks_names_unique :
  names_unique two_drinks
  /\ ids_unique two_drinks
  /\ fst (patch 2 (rename "latte") two_drinks)
     = Ok (mkResponse 2 (py "latte") (py "large") (dec 4 1))
  /\ ~ names_unique (snd (patch 2 (rename "latte") two_drinks)).
Proof.
  split; [|split; [|split]].
  - vm_compute. repeat constructor; simpl; intuition discriminate.
  - vm_compute. repeat constructor; simpl; intuition discriminate.
  - vm_compute. reflexivity.
  - vm_compute. intros H. inversion H as [|? ? Hin _]. apply Hin.
    left. reflexivity.
Qed.

(** C2 fails.  Renaming record 2 to [" LATTE "], the name of record 1 up
    to case and white space, is refused by PUT with the conflict and
    carried out by PATCH. *)
Theorem patch_accepts_duplicate_name :
  fst (replace 2 (mkBeverage (py " LATTE ") (py "large") (dec 4 1))
               two_drinks)
  = Err ConflictError
  /\ patch 2 (rename " LATTE ") two_drinks
     = (Ok (mkResponse 2 (py "LATTE") (py "large") (dec 4 1)),
        mkStore [mkResponse 1 (py "Latte") (py "small") (dec 5 2);
                 mkResponse 2 (py "LATTE") (py "large") (dec 4 1)] 3).
Proof. vm_compute. split; reflexivity. Qed.

(** C3 fails.  A name of three spaces is refused by POST and PUT with the
    name error; PATCH accepts it and stores the empty name. *)
Theorem patch_stores_blank_name :
  fst (create (mkBeverage (py "   ") (py "small") (dec 5 2)) initial_store)
  = Err (ValidationError [EmptyName])
  /\ fst (replace 1 (mkBeverage (py "   ") (py "small") (dec 5 2)) one_drink)
     = Err (ValidationError [EmptyName])
  /\ patch 1 (rename "   ") one_drink
     = (Ok (mkResponse 1 [] (py "small") (dec 5 2)),
        mkStore [mkResponse 1 [] (py "small") (dec 5 2)] 2).
Proof. vm_compute. repeat split; reflexivity. Qed.

(* ================================================================== *)
(** * More on lists *)

Lemma In_list_pop_iff {A : Type} (k : nat) (y : A) (l : list A) :
  In y (list_pop k l) <-> exists j, j <> k /\ nth_error l j = Some y.
Proof.
  revert k. induction l as [|a l IH]; intros k.
  - destruct k; simpl; split; try tauto;
      intros (j & _ & H); destruct j; discriminate.
  - destruct k as [|k]; simpl.
    + split.
      * intros H. apply In_nth_error in H as [j Hj].
        exists (S j). split; [discriminate|exact Hj].
      * intros ([|j] & Hne & Hj); [congruence|].
        simpl in Hj. now apply nth_error_In in Hj.
    + rewrite IH. split.
      * intros [<-|(j & Hne & Hj)].
        -- exists O. split; [discriminate|reflexivity].
        -- exists (S j). split; [congruence|exact Hj].
      * intros ([|j] & Hne & Hj); simpl in Hj.
        -- left. congruence.
        -- right. exists j. split; [congruence|exact Hj].
Qed.

Lemma length_list_pop {A : Type} (k : nat) (x : A) (l : list A) :
  nth_error l k = Some x -> List.length l = S (List.length (list_pop k l)).
Proof.
  revert k. induction l as [|a l IH]; intros [|k]; simpl; try discriminate.
  - reflexivity.
  - intros H. f_equal. now apply IH.
Qed.

Lemma length_list_set {A : Type} (k : nat) (x : A) (l : list A) :
  List.length (list_set k x l) = List.length l.
Proof.
  revert k. induction l as [|a l IH]; intros [|k]; simpl; auto.
Qed.

Lemma nth_error_list_set {A : Type} (k j : nat) (x : A) (l : list A) :
  nth_error (list_set k x l) j
  = if Nat.eqb j k then match nth_error l k with
                        | Some _ => Some x
                        | None => None
                        end
    else nth_error l j.
Proof.
  revert k j. induction l as [|a l IH]; intros [|k] [|j]; simpl; auto;
    destruct (Nat.eqb j k); reflexivity.
Qed.

Lemma list_set_same {A : Type} (k : nat) (x : A) (l : list A) :
  nth_error l k = Some x -> list_set k x l = l.
Proof.
  revert k. induction l as [|a l IH]; intros [|k]; simpl; try discriminate.
  - intros E. now inversion E.
  - intros E. f_equal. now apply IH.
Qed.

Lemma list_pop_snoc {A : Type} (l : list A) (x : A) :
  list_pop (List.length l) (l ++ [x]) = l.
Proof. induction l as [|a l IH]; simpl; congruence. Qed.

(** Distinct keys: two different positions carry different keys. *)
Lemma NoDup_map_nth_neq {A B : Type} (f : A -> B) (l : list A) (j k : nat)
    (x y : A) :
  NoDup (map f l) ->
  nth_error l k = Some x -> nth_error l j = Some y -> j <> k ->
  f y <> f x.
Proof.
  intros Hnd Hk Hj Hne E. apply Hne.
  apply (proj1 (NoDup_nth_error (map f l)) Hnd).
  - rewrite length_map. apply nth_error_Some. congruence.
  - rewrite (map_nth_error f _ _ Hj), (map_nth_error f _ _ Hk).
    now rewrite E.
Qed.

(** With distinct keys, the first record passing a test on the key is
    the only one. *)
Lemma find_by_key {A B : Type} (f : A -> B) (key : B) (p : A -> bool)
    (l : list A) (b : A) :
  (forall a, p a = true <-> f a = key) ->
  NoDup (map f l) -> In b l -> f b = key -> find p l = Some b.
Proof.
  intros Hp. induction l as [|a l IH]; simpl; intros Hnd Hin Hb; [tauto|].
  apply NoDup_cons_iff in Hnd as [Ha Hl].
  destruct (p a) eqn:Hpa.
  - apply Hp in Hpa. destruct Hin as [->|Hin]; [reflexivity|].
    exfalso. apply Ha. apply in_map_iff. exists b. split; congruence.
  - destruct Hin as [->|Hin]; [|now apply IH].
    apply Hp in Hb. congruence.
Qed.

Lemma find_id_snoc (db : list BeverageResponse) (r : BeverageResponse) :
  Forall (fun b => id b < id r) db ->
  find_id (id r) (db ++ [r]) = Some (List.length db, r).
Proof.
  induction db as [|a db IH]; simpl; intros H.
  - now rewrite Z.eqb_refl.
  - inversion H as [|? ? Ha Hdb]. subst.
    destruct (Z.eqb_spec (id a) (id r)) as [E|_]; [lia|].
    now rewrite (IH Hdb).
Qed.

Lemma find_id_holds (beverage_id : Z) (st : store) :
  holds_id beverage_id st ->
  exists k x, find_id beverage_id (beverages_db st) = Some (k, x).
Proof.
  intros (b & Hb & E).
  destruct (find_id beverage_id (beverages_db st)) as [[k x]|] eqn:Hf.
  - now exists k, x.
  - exfalso. apply (proj1 (find_id_None _ _) Hf b Hb E).
Qed.

Lemma answers_to_iff (q : str) (b : BeverageResponse) :
  answers_to q b = true <-> lower (name b) = strip (lower q).
Proof. unfold answers_to. apply str_eqb_eq. Qed.

Lemma find_all_false {A : Type} (p : A -> bool) (l : list A) :
  (forall x, In x l -> p x = false) -> find p l = None.
Proof.
  induction l as [|a l IH]; simpl; intros H; [reflexivity|].
  rewrite (H a) by now left. apply IH. intros x Hx. apply H. now right.
Qed.

Lemma find_app_first {A : Type} (p : A -> bool) (l l' : list A) (x : A) :
  find p l = Some x -> find p (l ++ l') = Some x.
Proof.
  induction l as [|a l IH]; simpl; [discriminate|].
  destruct (p a); auto.
Qed.

(** With distinct identifiers, the entry found under the identifier of a
    record of the collection is that record. *)
Lemma find_id_of_record (st : store) (r x : BeverageResponse) (k : nat) :
  ids_unique st -> In r (beverages_db st) ->
  find_id (id r) (beverages_db st) = Some (k, x) -> x = r.
Proof.
  intros Hid Hin Hf. apply find_id_Some in Hf as [Hk Hx].
  apply In_nth_error in Hin as [j Hj].
  destruct (Nat.eq_dec j k) as [->|Hne]; [congruence|].
  exfalso. apply (NoDup_map_nth_neq id _ _ _ _ _ Hid Hk Hj Hne).
  now symmetry.
Qed.

Lemma find_id_record (st : store) (r : BeverageResponse) :
  ids_unique st -> In r (beverages_db st) ->
  exists k, find_id (id r) (beverages_db st) = Some (k, r)
            /\ nth_error (beverages_db st) k = Some r.
Proof.
  intros Hid Hin.
  destruct (find_id_holds (id r) st) as (k & x & Hf);
    [exists r; auto|].
  pose proof (find_id_of_record st r x k Hid Hin Hf) as ->.
  exists k. split; [exact Hf|]. now apply find_id_Some in Hf.
Qed.

(* ================================================================== *)
(** * Looking a record up by its name *)

(** X1.  In a collection with distinct names, the lookup by name answers
    with the record whose name is the query up to case and surrounding
    white space, wherever that record sits. *)
Theorem getByName_finds (st : store) (b : BeverageResponse) (q : str) :
  names_unique st ->
  In b (beverages_db st) ->
  lower (name b) = strip (lower q) ->
  getByName q st = Ok b.
Proof.
  intros Hu Hin Hq. unfold getByName, get_beverage_by_name.
  change (fun beverage : BeverageResponse =>
            str_eqb (lower (name beverage)) (strip (lower q)))
    with (answers_to q).
  rewrite (find_by_key (fun x => lower (name x)) (strip (lower q))
             (answers_to q) _ b); auto.
  intros a. apply answers_to_iff.
Qed.

Lemma getByName_finds_witness :
  getByName (py "  MOCHA ") two_drinks
  = Ok (mkResponse 2 (py "Mocha") (py "large") (dec 4 1)).
Proof.
  apply (getByName_finds two_drinks).
  - vm_compute. repeat constructor; simpl; intuition discriminate.
  - vm_compute. right. left. reflexivity.
  - vm_compute. reflexivity.
Defined.

(** X2.  The lookup by name fails exactly when no record of the
    collection has the queried name, the failure being the not-found
    error; a record it answers with is in the collection and has that
    name. *)
Theorem getByName_not_found_iff (st : store) (q : str) :
  (getByName q st = Err NotFoundError
   <-> forall b, In b (beverages_db st) ->
                 lower (name b) <> strip (lower q))
  /\ (forall e, getByName q st = Err e -> e = NotFoundError)
  /\ (forall b, getByName q st = Ok b ->
                In b (beverages_db st)
                /\ lower (name b) = strip (lower q)).
Proof.
  unfold getByName, get_beverage_by_name.
  change (fun beverage : BeverageResponse =>
            str_eqb (lower (name beverage)) (strip (lower q)))
    with (answers_to q).
  destruct (find (answers_to q) (beverages_db st)) as [x|] eqn:Hf.
  - apply find_some in Hf as [Hin Hx]. apply answers_to_iff in Hx.
    split; [|split].
    + split; [discriminate|]. intros H. exfalso. now apply (H x).
    + discriminate.
    + intros b E. inversion E. subst. auto.
  - split; [|split].
    + split; [|reflexivity]. intros _ b Hb E.
      apply answers_to_iff in E.
      pose proof (find_none _ _ Hf b Hb). congruence.
    + intros e E. now inversion E.
    + discriminate.
Qed.

(** X3.  A create, accepted or not, does not change what a lookup by
    name found before it. *)
Theorem create_keeps_lookups (st : store) (c : Beverage)
    (b : BeverageResponse) (q : str) :
  getByName q st = Ok b ->
  getByName q (snd (create c st)) = Ok b.
Proof.
  unfold getByName, get_beverage_by_name. intros H.
  destruct (find _ (beverages_db st)) as [x|] eqn:Hf; [|discriminate].
  inversion H. subst x. clear H.
  unfold create, with_model.
  destruct (Beverage_validate c) as [es|v]; simpl; [now rewrite Hf|].
  destruct (add_beverage_cases v st) as [->|(r & _ & ->)]; simpl.
  - now rewrite Hf.
  - now rewrite (find_app_first _ _ _ _ Hf).
Qed.

Lemma create_keeps_lookups_witness :
  getByName (py "latte") (snd (create mocha one_drink))
  = Ok (mkResponse 1 (py "Latte") (py "small") (dec 5 2)).
Proof.
  apply (create_keeps_lookups one_drink mocha).
  vm_compute. reflexivity.
Defined.

(* ================================================================== *)
(** * Deleting *)

(** X4.  With distinct identifiers, deleting the identifier of a record
    of the collection succeeds; the collection is then one shorter and
    holds exactly the records with another identifier, the counter is
    what it was, and a second delete of the same identifier finds
    nothing. *)
Theorem delete_removes_record (st : store) (r : BeverageResponse) :
  ids_unique st ->
  In r (beverages_db st) ->
  fst (delete (id r) st) = Ok tt
  /\ next_id (snd (delete (id r) st)) = next_id st
  /\ List.length (beverages_db st)
     = S (List.length (beverages_db (snd (delete (id r) st))))
  /\ (forall b, In b (beverages_db (snd (delete (id r) st)))
                <-> In b (beverages_db st) /\ id b <> id r)
  /\ delete (id r) (snd (delete (id r) st))
     = (Err NotFoundError, snd (delete (id r) st)).
Proof.
  intros Hid Hin.
  destruct (find_id_record st r Hid Hin) as (k & Hf & Hk).
  assert (Hmem : forall b, In b (list_pop k (beverages_db st))
                           <-> In b (beverages_db st) /\ id b <> id r).
  { intros b. rewrite In_list_pop_iff. split.
    - intros (j & Hne & Hj). split; [now apply nth_error_In in Hj|].
      exact (NoDup_map_nth_neq id _ _ _ _ _ Hid Hk Hj Hne).
    - intros [Hb Hne]. apply In_nth_error in Hb as [j Hj].
      exists j. split; [|exact Hj]. intros ->. congruence. }
  unfold delete, delete_beverage. rewrite Hf. cbn [fst snd beverages_db next_id].
  repeat split.
  - now apply length_list_pop in Hk.
  - now apply Hmem.
  - now apply Hmem.
  - intros [Hb Hne]. now apply Hmem.
  - assert (Hnone : find_id (id r) (list_pop k (beverages_db st)) = None).
    { apply find_id_None. intros b Hb. now apply Hmem in Hb. }
    now rewrite Hnone.
Qed.

Lemma delete_removes_record_witness :
  fst (delete 1 two_drinks) = Ok tt
  /\ beverages_db (snd (delete 1 two_drinks))
     = [mkResponse 2 (py "Mocha") (py "large") (dec 4 1)].
Proof.
  pose proof (delete_removes_record two_drinks
                (mkResponse 1 (py "Latte") (py "small") (dec 5 2))) as H.
  assert (Hid : ids_unique two_drinks).
  { vm_compute. repeat constructor; simpl; intuition discriminate. }
  assert (Hin : In (mkResponse 1 (py "Latte") (py "small") (dec 5 2))
                   (beverages_db two_drinks)).
  { vm_compute. left. reflexivity. }
  destruct (H Hid Hin) as (Hok & _).
  split; [exact Hok|]. vm_compute. reflexivity.
Defined.

(** X5.  With distinct identifiers and distinct names, once a record is
    deleted the lookup by its name fails. *)
Theorem delete_then_getByName (st : store) (r : BeverageResponse) (q : str) :
  ids_unique st ->
  names_unique st ->
  In r (beverages_db st) ->
  strip (lower q) = lower (name r) ->
  getByName q (snd (delete (id r) st)) = Err NotFoundError.
Proof.
  intros Hid Hu Hin Hq.
  destruct (find_id_record st r Hid Hin) as (k & Hf & Hk).
  unfold delete, delete_beverage. rewrite Hf. cbn [snd].
  unfold getByName, get_beverage_by_name. cbn [beverages_db].
  rewrite find_all_false; [reflexivity|].
  intros b Hb. apply In_list_pop_iff in Hb as (j & Hne & Hj).
  apply str_eqb_neq. rewrite Hq.
  exact (NoDup_map_nth_neq (fun x => lower (name x)) _ _ _ _ _ Hu Hk Hj Hne).
Qed.

Lemma delete_then_getByName_witness :
  getByName (py " LATTE ") (snd (delete 1 two_drinks)) = Err NotFoundError.
Proof.
  apply (delete_then_getByName two_drinks
           (mkResponse 1 (py "Latte") (py "small") (dec 5 2))).
  - vm_compute. repeat constructor; simpl; intuition discriminate.
  - vm_compute. repeat constructor; simpl; intuition discriminate.
  - vm_compute. left. reflexivity.
  - vm_compute. reflexivity.
Defined.

(** X6.  Where every identifier of the collection is below the counter,
    deleting the record a create has just returned gives the collection
    back as it was before the create; the counter keeps the step it
    took. *)
Theorem create_then_delete (st st' : store) (c : Beverage)
    (r : BeverageResponse) :
  ids_below_counter st ->
  create c st = (Ok r, st') ->
  delete (id r) st' = (Ok tt, mkStore (beverages_db st) (next_id st + 1)).
Proof.
  intros Hinv Hc.
  apply create_Ok_inv in Hc as (b & _ & _ & Hr & ->).
  assert (Hidr : id r = next_id st) by (subst r; reflexivity).
  unfold delete, delete_beverage. cbn [beverages_db next_id].
  rewrite find_id_snoc.
  - now rewrite list_pop_snoc.
  - rewrite Hidr. exact Hinv.
Qed.

Lemma create_then_delete_witness :
  delete 2 two_drinks = (Ok tt, mkStore (beverages_db one_drink) 3).
Proof.
  apply (create_then_delete one_drink two_drinks mocha
           (mkResponse 2 (py "Mocha") (py "large") (dec 4 1))).
  - vm_compute. repeat constructor.
  - vm_compute. reflexivity.
Defined.

(** X7.  Under an identifier that no record holds, DELETE and PATCH
    answer with the not-found error and return the store as it was; a
    PATCH body that its model refuses is answered with its field errors
    instead, the store again untouched. *)
Theorem missing_id_delete_patch (st : store) (beverage_id : Z)
    (u : BeverageUpdate) :
  ~ holds_id beverage_id st ->
  delete beverage_id st = (Err NotFoundError, st)
  /\ partial_update_beverage beverage_id u st = (Err NotFoundError, st)
  /\ patch beverage_id u st
     = (Err match BeverageUpdate_validate u with
            | inl es => ValidationError es
            | inr _ => NotFoundError
            end, st).
Proof.
  intros Hno.
  assert (Hfind : find_id beverage_id (beverages_db st) = None).
  { apply find_id_None. intros b Hb E. apply Hno. now exists b. }
  assert (Hpatch : forall v, partial_update_beverage beverage_id v st
                             = (Err NotFoundError, st)).
  { intros v. unfold partial_update_beverage. now rewrite Hfind. }
  split; [|split].
  - unfold delete, delete_beverage. now rewrite Hfind.
  - apply Hpatch.
  - unfold patch, with_model.
    destruct (BeverageUpdate_validate u) as [es|v]; [reflexivity|apply Hpatch].
Qed.

Lemma missing_id_delete_patch_witness :
  delete 9 two_drinks = (Err NotFoundError, two_drinks)
  /\ partial_update_beverage 9 (rename "Tea") two_drinks
     = (Err NotFoundError, two_drinks)
  /\ patch 9 (rename "Tea") two_drinks = (Err NotFoundError, two_drinks).
Proof.
  apply (missing_id_delete_patch two_drinks 9 (rename "Tea")).
  intros (b & Hb & E). vm_compute in Hb.
  destruct Hb as [<-|[<-|[]]]; discriminate E.
Defined.

(* ================================================================== *)
(** * Overwriting a record: PUT and PATCH *)

Lemma In_list_set_iff {A : Type} (k : nat) (x r o : A) (l : list A) :
  nth_error l k = Some r ->
  In o (list_set k x l)
  <-> o = x \/ exists j, j <> k /\ nth_error l j = Some o.
Proof.
  intros Hk. split.
  - intros H. apply In_nth_error in H as [j Hj].
    rewrite nth_error_list_set in Hj.
    destruct (Nat.eqb_spec j k) as [E|Hne].
    + rewrite Hk in Hj. left. congruence.
    + right. now exists j.
  - intros [->|(j & Hne & Hj)].
    + apply (nth_error_In _ k). rewrite nth_error_list_set, Nat.eqb_refl.
      now rewrite Hk.
    + apply (nth_error_In _ j). rewrite nth_error_list_set.
      now destruct (Nat.eqb_spec j k).
Qed.

(** Overwriting the entry at [k] by one with the same key: the keys stay
    as they are, the new entry is in the list, and the entries with
    another key are the same as before. *)
Lemma list_set_same_key {A B : Type} (f : A -> B) (k : nat) (x r : A)
    (l : list A) :
  nth_error l k = Some r -> f x = f r ->
  map f (list_set k x l) = map f l
  /\ In x (list_set k x l)
  /\ forall o, f o <> f r -> (In o (list_set k x l) <-> In o l).
Proof.
  intros Hk Hf. split; [now apply (map_list_set_same f _ _ r)|].
  split; [apply (In_list_set_iff k x r x l Hk); now left|].
  intros o Ho. rewrite (In_list_set_iff k x r o l Hk). split.
  - intros [->|(j & _ & Hj)]; [congruence|now apply nth_error_In in Hj].
  - intros Hin. right. apply In_nth_error in Hin as [j Hj].
    exists j. split; [|exact Hj]. intros ->. congruence.
Qed.

Lemma find_list_set {A : Type} (p : A -> bool) (k : nat) (x r : A)
    (l : list A) :
  nth_error l k = Some r -> p x = true ->
  (forall j y, j <> k -> nth_error l j = Some y -> p y = false) ->
  find p (list_set k x l) = Some x.
Proof.
  revert k. induction l as [|a l IH]; intros [|k]; simpl; try discriminate.
  - intros _ Hx _. now rewrite Hx.
  - intros Hk Hx Hothers.
    rewrite (Hothers O a ltac:(discriminate) eq_refl).
    apply IH; [exact Hk|exact Hx|].
    intros j y Hj Hy. apply (Hothers (S j) y); [congruence|exact Hy].
Qed.

(** The PUT handler on a record of the collection, when no other record
    has the new name. *)
Lemma update_beverage_Ok (st : store) (r : BeverageResponse) (b : Beverage) :
  ids_unique st ->
  In r (beverages_db st) ->
  (forall o, In o (beverages_db st) -> id o <> id r ->
             lower (name o) <> lower (bev_name b)) ->
  exists k,
    nth_error (beverages_db st) k = Some r
    /\ update_beverage (id r) b st
       = (Ok (mkResponse (id r) (bev_name b) (bev_size b) (bev_price b)),
          mkStore (list_set k (mkResponse (id r) (bev_name b) (bev_size b)
                                          (bev_price b))
                            (beverages_db st))
                  (next_id st)).
Proof.
  intros Hid Hin Hothers.
  destruct (find_id_record st r Hid Hin) as (k & Hf & Hk).
  exists k. split; [exact Hk|].
  unfold update_beverage. rewrite Hf.
  assert (Hex : existsb (fun other =>
                           negb (id other =? id r)
                           && str_eqb (lower (name other))
                                      (lower (bev_name b)))
                        (beverages_db st) = false).
  { apply existsb_false_iff. intros o Ho.
    destruct (Z.eqb_spec (id o) (id r)) as [E|E]; [reflexivity|].
    simpl. apply str_eqb_neq. now apply Hothers. }
  now rewrite Hex.
Qed.

(** X8.  With distinct identifiers, replacing a record of the collection
    by a body the model accepts, whose name no record with another
    identifier has, succeeds: the answer carries the old identifier and
    the validated fields, it takes the place of the old record, the
    identifiers keep their order, the records with another identifier
    and the counter are untouched. *)
Theorem replace_updates_record (st : store) (r : BeverageResponse)
    (c b : Beverage) :
  ids_unique st ->
  In r (beverages_db st) ->
  Beverage_validate c = inr b ->
  (forall o, In o (beverages_db st) -> id o <> id r ->
             lower (name o) <> lower (bev_name b)) ->
  fst (replace (id r) c st)
  = Ok (mkResponse (id r) (bev_name b) (bev_size b) (bev_price b))
  /\ next_id (snd (replace (id r) c st)) = next_id st
  /\ map id (beverages_db (snd (replace (id r) c st)))
     = map id (beverages_db st)
  /\ In (mkResponse (id r) (bev_name b) (bev_size b) (bev_price b))
        (beverages_db (snd (replace (id r) c st)))
  /\ (forall o, id o <> id r ->
                (In o (beverages_db (snd (replace (id r) c st)))
                 <-> In o (beverages_db st))).
Proof.
  intros Hid Hin Hval Hothers.
  destruct (update_beverage_Ok st r b Hid Hin Hothers) as (k & Hk & Hput).
  unfold replace, with_model. rewrite Hval, Hput.
  cbn [fst snd beverages_db next_id].
  destruct (list_set_same_key id k
              (mkResponse (id r) (bev_name b) (bev_size b) (bev_price b))
              r (beverages_db st) Hk eq_refl) as (Hmap & Hnew & Hrest).
  repeat split; auto; now apply Hrest.
Qed.

Lemma replace_updates_record_witness :
  fst (replace 2 (mkBeverage (py " Mocha Blanco ") (py "small") (dec 9 2))
               two_drinks)
  = Ok (mkResponse 2 (py "Mocha Blanco") (py "small") (dec 9 2)).
Proof.
  pose proof (replace_updates_record two_drinks
                (mkResponse 2 (py "Mocha") (py "large") (dec 4 1))
                (mkBeverage (py " Mocha Blanco ") (py "small") (dec 9 2))
                (mkBeverage (py "Mocha Blanco") (py "small") (dec 9 2)))
    as H.
  assert (Hid : ids_unique two_drinks).
  { vm_compute. repeat constructor; simpl; intuition discriminate. }
  assert (Hin : In (mkResponse 2 (py "Mocha") (py "large") (dec 4 1))
                   (beverages_db two_drinks)).
  { vm_compute. right. left. reflexivity. }
  assert (Hval : Beverage_validate
                   (mkBeverage (py " Mocha Blanco ") (py "small") (dec 9 2))
                 = inr (mkBeverage (py "Mocha Blanco") (py "small")
                                   (dec 9 2))).
  { vm_compute. reflexivity. }
  refine (proj1 (H Hid Hin Hval _)).
  intros o Ho Hne. vm_compute in Ho.
  destruct Ho as [<-|[<-|[]]]; vm_compute; [discriminate|].
  exfalso. apply Hne. reflexivity.
Defined.

(** X9.  With distinct identifiers and distinct names, a record can be
    replaced under its own name, in any casing: the other records do not
    stand in the way. *)
Theorem replace_may_keep_name (st : store) (r : BeverageResponse)
    (c b : Beverage) :
  ids_unique st ->
  names_unique st ->
  In r (beverages_db st) ->
  Beverage_validate c = inr b ->
  lower (bev_name b) = lower (name r) ->
  fst (replace (id r) c st)
  = Ok (mkResponse (id r) (bev_name b) (bev_size b) (bev_price b)).
Proof.
  intros Hid Hu Hin Hval Hname.
  assert (Hothers : forall o, In o (beverages_db st) -> id o <> id r ->
                              lower (name o) <> lower (bev_name b)).
  { intros o Ho Hne. rewrite Hname.
    apply In_nth_error in Ho as [j Hj].
    destruct (In_nth_error _ _ Hin) as [k Hk].
    apply (NoDup_map_nth_neq (fun x => lower (name x)) _ j k r o Hu Hk Hj).
    intros ->. congruence. }
  destruct (update_beverage_Ok st r b Hid Hin Hothers) as (k & Hk & Hput).
  unfold replace, with_model. now rewrite Hval, Hput.
Qed.

Lemma replace_may_keep_name_witness :
  fst (replace 1 (mkBeverage (py "LATTE") (py "large") (dec 6 1)) two_drinks)
  = Ok (mkResponse 1 (py "LATTE") (py "large") (dec 6 1)).
Proof.
  apply (replace_may_keep_name two_drinks
           (mkResponse 1 (py "Latte") (py "small") (dec 5 2))
           (mkBeverage (py "LATTE") (py "large") (dec 6 1))
           (mkBeverage (py "LATTE") (py "large") (dec 6 1))).
  - vm_compute. repeat constructor; simpl; intuition discriminate.
  - vm_compute. repeat constructor; simpl; intuition discriminate.
  - vm_compute. left. reflexivity.
  - vm_compute. reflexivity.
  - vm_compute. reflexivity.
Defined.

(** X10.  Under the hypotheses of a successful replace, the lookup by
    the new name then answers with the replaced record. *)
Theorem replace_then_getByName (st : store) (r : BeverageResponse)
    (c b : Beverage) (q : str) :
  ids_unique st ->
  In r (beverages_db st) ->
  Beverage_validate c = inr b ->
  (forall o, In o (beverages_db st) -> id o <> id r ->
             lower (name o) <> lower (bev_name b)) ->
  same_name q (bev_name c) ->
  getByName q (snd (replace (id r) c st))
  = Ok (mkResponse (id r) (strip (bev_name c)) (bev_size b) (bev_price b)).
Proof.
  intros Hid Hin Hval Hothers Hq.
  destruct (update_beverage_Ok st r b Hid Hin Hothers) as (k & Hk & Hput).
  unfold replace, with_model. rewrite Hval, Hput. cbn [snd].
  unfold getByName, get_beverage_by_name. cbn [beverages_db].
  pose proof (validated_name _ _ Hval) as Hn.
  rewrite strip_lower, Hq, <- Hn.
  rewrite (find_list_set _ k _ r); [reflexivity|exact Hk| |].
  - simpl. apply str_eqb_refl.
  - intros j y Hj Hy. apply str_eqb_neq.
    apply Hothers; [now apply nth_error_In in Hy|].
    exact (NoDup_map_nth_neq id _ _ _ _ _ Hid Hk Hy Hj).
Qed.

Lemma replace_then_getByName_witness :
  getByName (py "mocha blanco")
    (snd (replace 2 (mkBeverage (py " Mocha Blanco ") (py "small") (dec 9 2))
                  two_drinks))
  = Ok (mkResponse 2 (strip (py " Mocha Blanco ")) (py "small") (dec 9 2)).
Proof.
  apply (replace_then_getByName two_drinks
           (mkResponse 2 (py "Mocha") (py "large") (dec 4 1))
           (mkBeverage (py " Mocha Blanco ") (py "small") (dec 9 2))
           (mkBeverage (py "Mocha Blanco") (py "small") (dec 9 2))).
  - vm_compute. repeat constructor; simpl; intuition discriminate.
  - vm_compute. right. left. reflexivity.
  - vm_compute. reflexivity.
  - intros o Ho Hne. vm_compute in Ho.
    destruct Ho as [<-|[<-|[]]]; vm_compute; [discriminate|].
    exfalso. apply Hne. reflexivity.
  - vm_compute. reflexivity.
Defined.

(** The PATCH handler on a record of the collection. *)
Lemma partial_update_beverage_Ok (st : store) (r : BeverageResponse)
    (u : BeverageUpdate) :
  ids_unique st ->
  In r (beverages_db st) ->
  exists k,
    nth_error (beverages_db st) k = Some r
    /\ partial_update_beverage (id r) u st
       = (Ok (mkResponse (id r)
                (match upd_name u with Some n => strip n | None => name r end)
                (match upd_size u with Some s => s | None => size r end)
                (match upd_price u with
                 | Some p => round2 p
                 | None => price r
                 end)),
          mkStore
            (list_set k
               (mkResponse (id r)
                  (match upd_name u with
                   | Some n => strip n
                   | None => name r
                   end)
                  (match upd_size u with Some s => s | None => size r end)
                  (match upd_price u with
                   | Some p => round2 p
                   | None => price r
                   end))
               (beverages_db st))
            (next_id st)).
Proof.
  intros Hid Hin.
  destruct (find_id_record st r Hid Hin) as (k & Hf & Hk).
  exists k. split; [exact Hk|].
  unfold partial_update_beverage. rewrite Hf.
  destruct r as [i n s p].
  now destruct (upd_name u), (upd_size u), (upd_price u).
Qed.

(** X11.  With distinct identifiers, a PATCH of a record of the
    collection with a body its model accepts succeeds: the fields the
    body carries are taken over, the name trimmed and the price rounded
    to two decimals; the fields it leaves out, and the identifier, keep
    their values.  The record so changed is the answer and is in the
    collection, where it is the only record under that identifier; the
    records with another identifier, the order of the identifiers, the
    length of the collection and the counter are untouched. *)
Theorem patch_updates_record (st : store) (r : BeverageResponse)
    (u v : BeverageUpdate) :
  ids_unique st ->
  In r (beverages_db st) ->
  BeverageUpdate_validate u = inr v ->
  fst (patch (id r) u st)
  = Ok (mkResponse (id r)
          (match upd_name u with Some n => strip n | None => name r end)
          (match upd_size u with Some s => s | None => size r end)
          (match upd_price u with Some p => round2 p | None => price r end))
  /\ next_id (snd (patch (id r) u st)) = next_id st
  /\ map id (beverages_db (snd (patch (id r) u st)))
     = map id (beverages_db st)
  /\ (forall o, id o <> id r ->
                (In o (beverages_db (snd (patch (id r) u st)))
                 <-> In o (beverages_db st)))
  /\ In (mkResponse (id r)
          (match upd_name u with Some n => strip n | None => name r end)
          (match upd_size u with Some s => s | None => size r end)
          (match upd_price u with Some p => round2 p | None => price r end))
        (beverages_db (snd (patch (id r) u st)))
  /\ (forall o, In o (beverages_db (snd (patch (id r) u st))) ->
                id o = id r ->
                o = mkResponse (id r)
                      (match upd_name u with
                       | Some n => strip n
                       | None => name r
                       end)
                      (match upd_size u with Some s => s | None => size r end)
                      (match upd_price u with
                       | Some p => round2 p
                       | None => price r
                       end))
  /\ List.length (beverages_db (snd (patch (id r) u st)))
     = List.length (beverages_db st).
Proof.
  intros Hid Hin Hval.
  destruct (partial_update_beverage_Ok st r u Hid Hin) as (k & Hk & Hp).
  pose proof (BeverageUpdate_validate_inr u v Hval) as [-> _].
  unfold patch, with_model. rewrite Hval, Hp.
  cbn [fst snd beverages_db next_id].
  match goal with
  | |- context [list_set k ?x _] =>
      destruct (list_set_same_key id k x r (beverages_db st) Hk eq_refl)
        as (Hmap & Hnew & Hrest);
      pose proof (In_list_set_iff k x r) as Hset
  end.
  split; [reflexivity|]. split; [reflexivity|]. split; [exact Hmap|].
  split; [intros o Ho; now apply Hrest|]. split; [exact Hnew|].
  split; [|apply length_list_set].
  intros o Ho Hsame. apply (Hset o _ Hk) in Ho as [Ho|(j & Hj & Hnth)];
    [exact Ho|].
  exfalso.
  apply (NoDup_map_nth_neq id _ _ _ _ _ Hid Hk Hnth Hj). exact Hsame.
Qed.

Lemma patch_updates_record_witness :
  fst (patch 1 (mkBeverageUpdate None None (Some (dec 4567 1000))) one_drink)
  = Ok (mkResponse 1 (py "Latte") (py "small") (dec 457 100)).
Proof.
  pose proof (patch_updates_record one_drink
                (mkResponse 1 (py "Latte") (py "small") (dec 5 2))
                (mkBeverageUpdate None None (Some (dec 4567 1000)))
                (mkBeverageUpdate None None (Some (dec 4567 1000)))) as H.
  assert (Hid : ids_unique one_drink).
  { vm_compute. repeat constructor; simpl; intuition discriminate. }
  assert (Hin : In (mkResponse 1 (py "Latte") (py "small") (dec 5 2))
                   (beverages_db one_drink)).
  { vm_compute. left. reflexivity. }
  assert (Hval : BeverageUpdate_validate
                   (mkBeverageUpdate None None (Some (dec 4567 1000)))
                 = inr (mkBeverageUpdate None None (Some (dec 4567 1000)))).
  { vm_compute. reflexivity. }
  destruct (H Hid Hin Hval) as [Hfst _].
  etransitivity; [exact Hfst|]. vm_compute. reflexivity.
Defined.

(** X12.  A PATCH whose body carries no field answers with the first
    record that holds the identifier and returns the store exactly as it
    was. *)
Theorem patch_empty_body (st : store) (beverage_id : Z) :
  holds_id beverage_id st ->
  exists x,
    In x (beverages_db st) /\ id x = beverage_id
    /\ patch beverage_id (mkBeverageUpdate None None None) st = (Ok x, st).
Proof.
  intros Hh. destruct (find_id_holds _ _ Hh) as (k & x & Hf).
  exists x. pose proof (find_id_Some _ _ _ _ Hf) as [Hk Hx].
  split; [now apply nth_error_In in Hk|]. split; [exact Hx|].
  unfold patch, with_model. cbn [BeverageUpdate_validate optional_field
    upd_name upd_size upd_price app].
  unfold partial_update_beverage. rewrite Hf. cbn [upd_name upd_size upd_price].
  rewrite (list_set_same _ _ _ Hk). now destruct st.
Qed.

Lemma patch_empty_body_witness :
  exists x,
    In x (beverages_db two_drinks) /\ id x = 2
    /\ patch 2 (mkBeverageUpdate None None None) two_drinks
       = (Ok x, two_drinks).
Proof.
  apply (patch_empty_body two_drinks 2).
  exists (mkResponse 2 (py "Mocha") (py "large") (dec 4 1)).
  split; [vm_compute; right; left; reflexivity|reflexivity].
Defined.

(* ================================================================== *)
(** * More on [strip] *)

Lemma lstrip_idem (s : str) : lstrip (lstrip s) = lstrip s.
Proof.
  induction s as [|c s IH]; simpl; [reflexivity|].
  destruct (isspace c) eqn:Hc; [exact IH|]. simpl. now rewrite Hc.
Qed.

Lemma lstrip_head (s : str) (c : ascii) (t : str) :
  lstrip s = c :: t -> isspace c = false.
Proof.
  induction s as [|a s IH]; simpl; [discriminate|].
  destruct (isspace a) eqn:Ha; [exact IH|].
  intros E. inversion E. now subst.
Qed.

Lemma lstrip_fixed (c : ascii) (t : str) :
  isspace c = false -> lstrip (c :: t) = c :: t.
Proof. intros H. simpl. now rewrite H. Qed.

Lemma rstrip_cons (c : ascii) (t : str) :
  rstrip (c :: t) = match rstrip t with
                    | [] => if isspace c then [] else [c]
                    | _ :: _ => c :: rstrip t
                    end.
Proof.
  unfold rstrip. simpl rev. rewrite lstrip_app.
  destruct (lstrip (rev t)) as [|a u] eqn:Hl.
  - simpl. now destruct (isspace c).
  - rewrite rev_app_distr. change (rev [c]) with [c].
    remember (rev (a :: u)) as w eqn:Hw. destruct w; [|reflexivity].
    apply (f_equal (@List.length ascii)) in Hw.
    rewrite length_rev in Hw. discriminate.
Qed.

Lemma rstrip_idem (s : str) : rstrip (rstrip s) = rstrip s.
Proof.
  unfold rstrip. now rewrite rev_involutive, lstrip_idem.
Qed.

Lemma rstrip_keeps_head (c : ascii) (t : str) :
  isspace c = false -> exists u, rstrip (c :: t) = c :: u.
Proof.
  intros Hc. rewrite rstrip_cons, Hc.
  destruct (rstrip t); eauto.
Qed.

Lemma rstrip_length (s : str) : (List.length (rstrip s) <= List.length s)%nat.
Proof.
  induction s as [|c s IH]; [reflexivity|].
  rewrite rstrip_cons. destruct (rstrip s); [destruct (isspace c)|];
    simpl in *; lia.
Qed.

Lemma lstrip_length (s : str) : (List.length (lstrip s) <= List.length s)%nat.
Proof.
  induction s as [|c s IH]; simpl; [lia|].
  destruct (isspace c); simpl; lia.
Qed.

Lemma rstrip_last (s : str) (d : ascii) :
  rstrip s <> [] -> isspace (last (rstrip s) d) = false.
Proof.
  unfold rstrip. destruct (lstrip (rev s)) as [|a u] eqn:Hl; [tauto|].
  intros _. simpl rev. rewrite last_last. now apply lstrip_head in Hl.
Qed.

(** Trimming twice is trimming once. *)
Lemma strip_idem (s : str) : strip (strip s) = strip s.
Proof.
  unfold strip. destruct (lstrip s) as [|c t] eqn:Hl; [reflexivity|].
  apply lstrip_head in Hl.
  destruct (rstrip_keeps_head c t Hl) as [u Hu].
  rewrite Hu, (lstrip_fixed c u Hl), <- Hu. apply rstrip_idem.
Qed.

Lemma strip_trimmed (s : str) : trimmed (strip s).
Proof.
  unfold trimmed. destruct (strip s) as [|c t] eqn:Hs; [exact I|].
  unfold strip in Hs. split.
  - destruct (lstrip s) as [|a u] eqn:Hl; [discriminate|].
    apply lstrip_head in Hl.
    destruct (rstrip_keeps_head a u Hl) as [w Hw]. congruence.
  - rewrite <- Hs. apply rstrip_last. congruence.
Qed.

Lemma strip_length (s : str) : len (strip s) <= len s.
Proof.
  unfold len, strip.
  pose proof (rstrip_length (lstrip s)). pose proof (lstrip_length s). lia.
Qed.

(* ================================================================== *)
(** * What every request keeps *)

Lemma partial_update_beverage_found (st : store) (beverage_id : Z)
    (u : BeverageUpdate) (k : nat) (x : BeverageResponse) :
  find_id beverage_id (beverages_db st) = Some (k, x) ->
  partial_update_beverage beverage_id u st
  = (Ok (patched u x),
     mkStore (list_set k (patched u x) (beverages_db st)) (next_id st)).
Proof.
  intros Hf. unfold partial_update_beverage, patched. rewrite Hf.
  destruct x as [i n s p].
  now destruct (upd_name u), (upd_size u), (upd_price u).
Qed.

Lemma run_snd_cons (rq : request) (rqs : list request) (st : store) :
  snd (run (rq :: rqs) st) = snd (run rqs (snd (step rq st))).
Proof. now rewrite run_cons. Qed.

(** A property of stores that every request of a list keeps is kept by
    the run of the list. *)
Lemma run_invariant (Q : request -> Prop) (P : store -> Prop) :
  (forall rq st, Q rq -> P st -> P (snd (step rq st))) ->
  forall rqs st, Forall Q rqs -> P st -> P (snd (run rqs st)).
Proof.
  intros Hstep rqs. induction rqs as [|rq rqs IH]; intros st HQ HP.
  - exact HP.
  - inversion HQ as [|? ? Hrq Hrqs]. subst. rewrite run_snd_cons.
    apply IH; [exact Hrqs|]. now apply Hstep.
Qed.

(** A property of records is kept by a request as soon as the records
    the request may write have it: the one built from a validated body,
    and the one PATCH makes of a record that had it. *)
Lemma step_keeps_Forall (P : BeverageResponse -> Prop) (rq : request)
    (st : store) :
  (forall i c b, rq = Create c \/ rq = Replace i c ->
                 Beverage_validate c = inr b -> P (record_of i b)) ->
  (forall i u x, rq = Patch i u -> BeverageUpdate_validate u = inr u ->
                 P x -> P (patched u x)) ->
  Forall P (beverages_db st) ->
  Forall P (beverages_db (snd (step rq st))).
Proof.
  intros Hnew Hpatch Hdb.
  destruct rq as [s lo hi|n|c|i c|i u|i|]; simpl.
  - exact Hdb.
  - exact Hdb.
  - unfold create, with_model.
    destruct (Beverage_validate c) as [es|b] eqn:Hval; simpl; [exact Hdb|].
    unfold add_beverage. destruct (existsb _ _); simpl; [exact Hdb|].
    apply Forall_app. split; [exact Hdb|]. constructor; [|constructor].
    apply (Hnew (next_id st) c b); auto.
  - unfold replace, with_model.
    destruct (Beverage_validate c) as [es|b] eqn:Hval; simpl; [exact Hdb|].
    unfold update_beverage.
    destruct (find_id i (beverages_db st)) as [[k x]|]; simpl; [|exact Hdb].
    destruct (existsb _ _); simpl; [exact Hdb|].
    apply Forall_list_set; [exact Hdb|]. apply (Hnew i c b); auto.
  - unfold patch, with_model.
    destruct (BeverageUpdate_validate u) as [es|v] eqn:Hval; simpl;
      [exact Hdb|].
    pose proof (BeverageUpdate_validate_inr u v Hval) as [-> _].
    destruct (find_id i (beverages_db st)) as [[k x]|] eqn:Hf.
    + rewrite (partial_update_beverage_found st i u k x Hf). simpl.
      apply Forall_list_set; [exact Hdb|].
      apply (Hpatch i u x); auto.
      apply find_id_Some in Hf as [Hk _]. apply nth_error_In in Hk.
      rewrite Forall_forall in Hdb. now apply Hdb.
    + unfold partial_update_beverage. rewrite Hf. exact Hdb.
  - unfold delete, delete_beverage.
    destruct (find_id i (beverages_db st)) as [[k x]|]; simpl; [|exact Hdb].
    now apply Forall_list_pop.
  - constructor.
Qed.

Lemma Beverage_size_inr (s s' : str) :
  Beverage_size s = inr s' -> s' = s /\ size_constraints s' = true.
Proof.
  unfold Beverage_size. destruct (size_constraints s) eqn:H; [|discriminate].
  intros E. inversion E. subst. auto.
Qed.

(** Sizes, and the shape of names. *)
Lemma step_keeps_sizes_names (rq : request) (st : store) :
  sizes_valid st /\ names_stripped st
  /\ Forall (fun b => len (name b) <= 100) (beverages_db st) ->
  sizes_valid (snd (step rq st)) /\ names_stripped (snd (step rq st))
  /\ Forall (fun b => len (name b) <= 100)
            (beverages_db (snd (step rq st))).
Proof.
  unfold sizes_valid, names_stripped. intros (Hs & Hn & Hl).
  split; [|split]; apply step_keeps_Forall; auto.
  - intros i c b _ Hval. apply Beverage_validate_inr in Hval as (_ & Hsz & _).
    now apply Beverage_size_inr in Hsz.
  - intros i u x _ Hval Hx. unfold patched. simpl.
    destruct (upd_size u) as [s|] eqn:Hu; [|exact Hx].
    destruct (BeverageUpdate_validate_inr u u Hval) as (_ & _ & Hsz & _).
    specialize (Hsz s Hu). now apply Beverage_size_inr in Hsz.
  - intros i c b _ Hval. simpl. rewrite (validated_name _ _ Hval).
    apply strip_idem.
  - intros i u x _ _ Hx. unfold patched. simpl.
    destruct (upd_name u); [apply strip_idem|exact Hx].
  - intros i c b _ Hval. simpl. rewrite (validated_name _ _ Hval).
    apply Beverage_validate_inr in Hval as (Hnm & _).
    apply Beverage_name_inr in Hnm as (_ & _ & Hlen).
    pose proof (strip_length (bev_name c)). lia.
  - intros i u x _ Hval Hx. unfold patched. simpl.
    destruct (upd_name u) as [n|] eqn:Hu; [|exact Hx].
    destruct (BeverageUpdate_validate_inr u u Hval) as (_ & Hnm & _).
    specialize (Hnm n Hu). unfold name_constraints in Hnm.
    apply andb_true_iff in Hnm as [_ Hhi]. apply Z.leb_le in Hhi.
    pose proof (strip_length n). lia.
Qed.

(** X13.  Whatever the requests, PATCH included, a run keeps every size
    of the collection among [small], [medium], [large], every name free
    of surrounding white space and at most 100 characters long; so it
    is in every store reached from the initial one. *)
Theorem run_keeps_sizes_names (rqs : list request) :
  (forall st,
      sizes_valid st /\ names_stripped st
      /\ Forall (fun b => len (name b) <= 100) (beverages_db st) ->
      sizes_valid (snd (run rqs st)) /\ names_stripped (snd (run rqs st))
      /\ Forall (fun b => len (name b) <= 100)
                (beverages_db (snd (run rqs st))))
  /\ sizes_valid (snd (run rqs initial_store))
  /\ names_stripped (snd (run rqs initial_store))
  /\ Forall (fun b => len (name b) <= 100)
            (beverages_db (snd (run rqs initial_store))).
Proof.
  assert (H : forall st,
             sizes_valid st /\ names_stripped st
             /\ Forall (fun b => len (name b) <= 100) (beverages_db st) ->
             sizes_valid (snd (run rqs st))
             /\ names_stripped (snd (run rqs st))
             /\ Forall (fun b => len (name b) <= 100)
                       (beverages_db (snd (run rqs st)))).
  { intros st Hst.
    apply (run_invariant (fun _ => True)
             (fun s => sizes_valid s /\ names_stripped s
                       /\ Forall (fun b => len (name b) <= 100)
                                 (beverages_db s))); auto.
    - intros rq s _. apply step_keeps_sizes_names.
    - now apply Forall_forall. }
  split; [exact H|]. apply H. repeat split; constructor.
Qed.

(* ================================================================== *)
(** * Identifiers in every reachable store *)

Lemma StronglySorted_snoc (l : list Z) (x : Z) :
  StronglySorted Z.lt l -> Forall (fun y => y < x) l ->
  StronglySorted Z.lt (l ++ [x]).
Proof.
  induction l as [|a l IH]; simpl; intros Hs Hx.
  - repeat constructor.
  - apply StronglySorted_inv in Hs as [Hs Ha].
    inversion Hx as [|? ? Hax Hlx]. subst.
    constructor; [now apply IH|].
    apply Forall_app. split; [exact Ha|]. now constructor.
Qed.

Lemma map_list_pop {A B : Type} (f : A -> B) (k : nat) (l : list A) :
  map f (list_pop k l) = list_pop k (map f l).
Proof.
  revert k. induction l as [|a l IH]; intros [|k]; simpl; auto.
  now rewrite IH.
Qed.

Lemma StronglySorted_list_pop (k : nat) (l : list Z) :
  StronglySorted Z.lt l -> StronglySorted Z.lt (list_pop k l).
Proof.
  revert k. induction l as [|a l IH]; intros [|k] Hs; simpl; auto.
  - now apply StronglySorted_inv in Hs.
  - apply StronglySorted_inv in Hs as [Hs Ha].
    constructor; [now apply IH|now apply Forall_list_pop].
Qed.

Lemma StronglySorted_NoDup (l : list Z) : StronglySorted Z.lt l -> NoDup l.
Proof.
  induction l as [|a l IH]; intros Hs; [constructor|].
  apply StronglySorted_inv in Hs as [Hs Ha].
  constructor; [|now apply IH].
  intros Hin. rewrite Forall_forall in Ha. specialize (Ha a Hin). lia.
Qed.

(** The numbering of a store: ascending identifiers, all from 1 up to
    below the counter. *)
Lemma step_keeps_numbering (rq : request) (st : store) :
  ids_sorted st /\ ids_below_counter st
  /\ Forall (fun b => 1 <= id b) (beverages_db st) /\ 1 <= next_id st ->
  ids_sorted (snd (step rq st)) /\ ids_below_counter (snd (step rq st))
  /\ Forall (fun b => 1 <= id b) (beverages_db (snd (step rq st)))
  /\ 1 <= next_id (snd (step rq st)).
Proof.
  unfold ids_sorted, ids_below_counter. intros (Hs & Hlt & Hpos & Hone).
  destruct rq as [s lo hi|n|c|i c|i u|i|]; simpl; auto.
  - unfold create, with_model.
    destruct (Beverage_validate c) as [es|b]; simpl; [auto|].
    destruct (add_beverage_cases b st) as [->|(r & Hr & ->)]; simpl; [auto|].
    repeat split.
    + rewrite map_app. simpl. apply StronglySorted_snoc; [exact Hs|].
      rewrite Forall_map, Hr. exact Hlt.
    + apply Forall_app. split;
        [now apply ids_below_counter_weaken|constructor; [lia|constructor]].
    + apply Forall_app. split; [exact Hpos|constructor; [lia|constructor]].
    + lia.
  - unfold replace, with_model.
    destruct (Beverage_validate c) as [es|b]; simpl; [auto|].
    unfold update_beverage.
    destruct (find_id i (beverages_db st)) as [[k x]|] eqn:Hf;
      simpl; [|auto].
    destruct (existsb _ _); simpl; [auto|].
    apply find_id_Some in Hf as [Hk Hx].
    pose proof (nth_error_In _ _ Hk) as Hin.
    rewrite Forall_forall in Hlt, Hpos.
    pose proof (Hlt x Hin). pose proof (Hpos x Hin).
    repeat split.
    + now rewrite (map_list_set_same id _ _ x _ Hk).
    + apply Forall_list_set; [now apply Forall_forall|simpl; lia].
    + apply Forall_list_set; [now apply Forall_forall|simpl; lia].
    + exact Hone.
  - unfold patch, with_model.
    destruct (BeverageUpdate_validate u) as [es|v]; simpl; [auto|].
    destruct (find_id i (beverages_db st)) as [[k x]|] eqn:Hf.
    + rewrite (partial_update_beverage_found st i v k x Hf). simpl.
      apply find_id_Some in Hf as [Hk Hx].
      pose proof (nth_error_In _ _ Hk) as Hin.
      rewrite Forall_forall in Hlt, Hpos.
      pose proof (Hlt x Hin). pose proof (Hpos x Hin).
      repeat split.
      * now rewrite (map_list_set_same id _ _ x _ Hk).
      * apply Forall_list_set; [now apply Forall_forall|simpl; lia].
      * apply Forall_list_set; [now apply Forall_forall|simpl; lia].
      * exact Hone.
    + unfold partial_update_beverage. rewrite Hf. simpl. auto.
  - unfold delete, delete_beverage.
    destruct (find_id i (beverages_db st)) as [[k x]|]; simpl; [|auto].
    repeat split.
    + rewrite map_list_pop. now apply StronglySorted_list_pop.
    + now apply Forall_list_pop.
    + now apply Forall_list_pop.
    + exact Hone.
  - repeat split; try constructor. lia.
Qed.

(** X14.  Whatever the requests, reset and PATCH included, a run keeps
    the numbering of the store: the collection lists its records by
    strictly ascending identifier, so insertion order is identifier
    order and no identifier occurs twice, and every identifier is at
    least 1 and below the counter.  This holds in every store reached
    from the initial one. *)
Theorem run_keeps_numbering (rqs : list request) :
  (forall st,
      ids_sorted st /\ ids_below_counter st
      /\ Forall (fun b => 1 <= id b) (beverages_db st) /\ 1 <= next_id st ->
      ids_sorted (snd (run rqs st)) /\ ids_below_counter (snd (run rqs st))
      /\ Forall (fun b => 1 <= id b) (beverages_db (snd (run rqs st)))
      /\ 1 <= next_id (snd (run rqs st)))
  /\ ids_sorted (snd (run rqs initial_store))
  /\ ids_unique (snd (run rqs initial_store))
  /\ Forall (fun b => 1 <= id b < next_id (snd (run rqs initial_store)))
            (beverages_db (snd (run rqs initial_store))).
Proof.
  assert (H : forall st,
             ids_sorted st /\ ids_below_counter st
             /\ Forall (fun b => 1 <= id b) (beverages_db st)
             /\ 1 <= next_id st ->
             ids_sorted (snd (run rqs st))
             /\ ids_below_counter (snd (run rqs st))
             /\ Forall (fun b => 1 <= id b) (beverages_db (snd (run rqs st)))
             /\ 1 <= next_id (snd (run rqs st))).
  { intros st Hst.
    apply (run_invariant (fun _ => True)
             (fun s => ids_sorted s /\ ids_below_counter s
                       /\ Forall (fun b => 1 <= id b) (beverages_db s)
                       /\ 1 <= next_id s)); auto.
    - intros rq s _. apply step_keeps_numbering.
    - now apply Forall_forall. }
  split; [exact H|].
  destruct (H initial_store) as (Hs & Hlt & Hpos & _).
  { split; [constructor|]. split; [constructor|]. split; [constructor|].
    simpl. lia. }
  split; [exact Hs|]. split; [now apply StronglySorted_NoDup|].
  unfold ids_below_counter in Hlt. rewrite Forall_forall in *.
  intros b Hb. split; [now apply Hpos|now apply Hlt].
Qed.

(* ================================================================== *)
(** * Prices in every reachable store *)

Lemma accepted_in_cents (p p' : float) :
  is_float p -> Beverage_price p = inr p' -> in_cents p'.
Proof.
  intros Hf Hp.
  apply Beverage_price_inr in Hp as (-> & m & e & -> & He).
  pose proof (accepted_mantissa m e Hf He) as Hm.
  assert (Hneg : e < 0) by lia.
  destruct (centi_accepted m e Hneg Hm) as [Hk _].
  exists (centi m e). split; [exact Hk|reflexivity].
Qed.

Lemma step_keeps_prices (rq : request) (st : store) :
  carries_floats rq -> prices_in_cents st ->
  prices_in_cents (snd (step rq st)).
Proof.
  unfold prices_in_cents. intros Hrq Hst.
  apply step_keeps_Forall; [| |exact Hst].
  - intros i c b Hc Hval. simpl.
    apply Beverage_validate_inr in Hval as (_ & _ & Hp).
    apply (accepted_in_cents (bev_price c)); [|exact Hp].
    destruct Hc as [->| ->]; exact Hrq.
  - intros i u x -> Hval Hx. unfold patched. simpl. simpl in Hrq.
    destruct (upd_price u) as [p|] eqn:Hu; [|exact Hx].
    destruct (BeverageUpdate_validate_inr u u Hval) as (_ & _ & _ & Hp).
    exact (accepted_in_cents p _ Hrq (Hp p Hu)).
Qed.

(** X15.  When the prices the requests carry are doubles, a run keeps
    every price of the collection a whole number of cents between 0.00
    and 100.00 (as the nearest double); so it is in every store reached
    from the initial one. *)
Theorem run_keeps_prices (rqs : list request) :
  Forall carries_floats rqs ->
  (forall st, prices_in_cents st -> prices_in_cents (snd (run rqs st)))
  /\ prices_in_cents (snd (run rqs initial_store)).
Proof.
  intros Hrqs.
  assert (H : forall st, prices_in_cents st ->
                         prices_in_cents (snd (run rqs st))).
  { intros st Hst.
    apply (run_invariant carries_floats prices_in_cents); auto.
    intros rq s. apply step_keeps_prices. }
  split; [exact H|]. apply H. constructor.
Qed.

Lemma run_keeps_prices_witness :
  prices_in_cents (snd (run session initial_store)).
Proof.
  apply (run_keeps_prices session).
  repeat constructor; vm_compute; reflexivity.
Defined.

(* ================================================================== *)
(** * The count of the health endpoint *)

Lemma step_count (rq : request) (st : store) :
  is_reset rq = false ->
  Z.of_nat (List.length (beverages_db (snd (step rq st))))
  = Z.of_nat (List.length (beverages_db st))
    + Z.of_nat (List.length (created_ids [fst (step rq st)]))
    - Z.of_nat (count_done [fst (step rq st)]).
Proof.
  intros Hrq.
  destruct rq as [s lo hi|n|c|i c|i u|i|]; simpl; try discriminate Hrq.
  - lia.
  - destruct (getByName n st); simpl; lia.
  - unfold create, with_model.
    destruct (Beverage_validate c) as [es|b]; simpl; [lia|].
    destruct (add_beverage_cases b st) as [->|(r & _ & ->)]; simpl; [lia|].
    rewrite length_app. simpl. lia.
  - unfold replace, with_model.
    destruct (Beverage_validate c) as [es|b]; simpl; [lia|].
    unfold update_beverage.
    destruct (find_id i (beverages_db st)) as [[k x]|]; simpl; [|lia].
    destruct (existsb _ _); simpl; [lia|].
    rewrite length_list_set. lia.
  - unfold patch, with_model.
    destruct (BeverageUpdate_validate u) as [es|v]; simpl; [lia|].
    destruct (find_id i (beverages_db st)) as [[k x]|] eqn:Hf.
    + rewrite (partial_update_beverage_found st i v k x Hf). simpl.
      rewrite length_list_set. lia.
    + unfold partial_update_beverage. rewrite Hf. simpl. lia.
  - unfold delete, delete_beverage.
    destruct (find_id i (beverages_db st)) as [[k x]|] eqn:Hf; simpl; [|lia].
    apply find_id_Some in Hf as [Hk _].
    rewrite (length_list_pop _ _ _ Hk). lia.
Qed.

Lemma created_ids_cons (a : response) (log : list response) :
  List.length (created_ids (a :: log))
  = (List.length (created_ids [a]) + List.length (created_ids log))%nat.
Proof. destruct a; reflexivity. Qed.

Lemma count_done_cons (a : response) (log : list response) :
  count_done (a :: log) = (count_done [a] + count_done log)%nat.
Proof. destruct a; reflexivity. Qed.

(** X16.  Along a run without reset, the count that the health endpoint
    reports moves with the answers: it ends at the count it started
    from, plus the number of records created, minus the number of
    deletions carried out; replacing and patching, and every refused
    request, leave it alone.  After a reset it is 0. *)
Theorem health_check_counts (rqs : list request) (st : store) :
  forallb (fun rq => negb (is_reset rq)) rqs = true ->
  beverages_count (health_check (snd (run rqs st)))
  = beverages_count (health_check st)
    + Z.of_nat (List.length (created_ids (fst (run rqs st))))
    - Z.of_nat (count_done (fst (run rqs st)))
  /\ beverages_count (health_check (reset (snd (run rqs st)))) = 0.
Proof.
  intros Hrqs. split; [|reflexivity]. unfold health_check. simpl.
  revert st. induction rqs as [|rq rqs IH]; intros st.
  - simpl. lia.
  - simpl in Hrqs. apply andb_true_iff in Hrqs as [Hrq Hrqs].
    apply negb_true_iff in Hrq.
    rewrite run_cons. cbn [fst snd].
    rewrite (IH Hrqs), (step_count rq st Hrq).
    rewrite (created_ids_cons _ (fst (run rqs (snd (step rq st))))),
      (count_done_cons _ (fst (run rqs (snd (step rq st))))).
    lia.
Qed.

Lemma health_check_counts_witness :
  beverages_count (health_check (snd (run session initial_store))) = 3.
Proof.
  pose proof (health_check_counts session initial_store) as H.
  assert (Hs : forallb (fun rq => negb (is_reset rq)) session = true)
    by (vm_compute; reflexivity).
  destruct (H Hs) as [Hc _]. rewrite Hc. vm_compute. reflexivity.
Defined.

(* ================================================================== *)
(** * What the model of POST and PUT accepts, field by field *)

(** X17.  The name field accepts a string exactly when its raw length is
    from 1 to 100 and it is not all white space; what it keeps is the
    trimmed string, which then neither starts nor ends with white space
    and is 1 to 100 characters long.  Every other string is refused
    with the name error; in particular a string of more than 100
    characters is refused even when its trimmed form is shorter. *)
Theorem Beverage_name_accepts (v : str) :
  (forall n, Beverage_name v = inr n
             <-> 1 <= len v <= 100 /\ strip v <> [] /\ n = strip v)
  /\ (forall n, Beverage_name v = inr n -> trimmed n /\ 1 <= len n <= 100)
  /\ (forall e, Beverage_name v = inl e -> e = EmptyName)
  /\ (100 < len v -> Beverage_name v = inl EmptyName).
Proof.
  assert (Hiff : forall n, Beverage_name v = inr n
                           <-> 1 <= len v <= 100 /\ strip v <> []
                               /\ n = strip v).
  { intros n. split.
    - intros H. apply Beverage_name_inr in H as (-> & Hne & Hlen). auto.
    - intros (Hlen & Hne & ->).
      unfold Beverage_name, name_constraints, name_must_not_be_empty.
      destruct (Z.leb_spec 1 (len v)); [|lia].
      destruct (Z.leb_spec (len v) 100); [|lia]. simpl.
      assert (Ht : truthy v = true).
      { destruct v; [exfalso; now apply Hne|reflexivity]. }
      rewrite Ht. simpl.
      apply str_eqb_neq in Hne. now rewrite Hne. }
  split; [exact Hiff|]. split; [|split].
  - intros n H. apply Hiff in H as (Hlen & Hne & ->).
    split; [apply strip_trimmed|].
    pose proof (strip_length v). split; [|lia].
    unfold len. destruct (strip v); [now exfalso|simpl; lia].
  - intros e. unfold Beverage_name, name_must_not_be_empty.
    destruct (name_constraints v);
      [destruct (negb (truthy v) || str_eqb (strip v) [])|];
      intros E; now inversion E.
  - intros H. unfold Beverage_name, name_constraints.
    destruct (Z.leb_spec (len v) 100); [lia|].
    now rewrite andb_false_r.
Qed.

Lemma field_errors (c : Beverage) :
  (forall e, Beverage_name (bev_name c) = inl e -> e = EmptyName)
  /\ (forall e, Beverage_size (bev_size c) = inl e -> e = InvalidSize)
  /\ (forall e, Beverage_price (bev_price c) = inl e -> e = InvalidPrice).
Proof.
  split; [|split]; intros e.
  - unfold Beverage_name, name_must_not_be_empty.
    destruct (name_constraints _);
      [destruct (negb _ || _)|]; intros E; now inversion E.
  - unfold Beverage_size. destruct (size_constraints _);
      intros E; now inversion E.
  - unfold Beverage_price, price_must_be_positive.
    destruct (price_constraints _);
      [destruct (fle _ _); [|destruct (fgt _ _)]|]; intros E;
      now inversion E.
Qed.

(** X18.  A body the model refuses is answered with one error for each
    field that fails and none for the others, the name first, then the
    size, then the price; the list is never empty. *)
Theorem Beverage_validate_errors (c : Beverage) (es : list field_error) :
  Beverage_validate c = inl es ->
  es <> []
  /\ es = match Beverage_name (bev_name c) with inl _ => [EmptyName] | inr _ => [] end
          ++ match Beverage_size (bev_size c) with inl _ => [InvalidSize] | inr _ => [] end
          ++ match Beverage_price (bev_price c) with inl _ => [InvalidPrice] | inr _ => [] end.
Proof.
  destruct (field_errors c) as (Hn & Hs & Hp).
  unfold Beverage_validate.
  destruct (Beverage_name (bev_name c)) as [en|n],
    (Beverage_size (bev_size c)) as [esz|s],
    (Beverage_price (bev_price c)) as [ep|p]; simpl;
    intros E; inversion E; subst;
    rewrite ?(Hn en eq_refl), ?(Hs esz eq_refl), ?(Hp ep eq_refl);
    split; try discriminate; reflexivity.
Qed.

Lemma Beverage_validate_errors_witness :
  [EmptyName; InvalidPrice] <> []
  /\ [EmptyName; InvalidPrice]
     = match Beverage_name (py "   ") with inl _ => [EmptyName] | inr _ => [] end
       ++ match Beverage_size (py "large") with inl _ => [InvalidSize] | inr _ => [] end
       ++ match Beverage_price (dec 201 2) with inl _ => [InvalidPrice] | inr _ => [] end.
Proof.
  apply (Beverage_validate_errors
           (mkBeverage (py "   ") (py "large") (dec 201 2))).
  vm_compute. reflexivity.
Defined.

(** X19.  NaN, the infinities, the zeros and every negative number are
    refused as a price, by the model of POST and PUT and by the model of
    PATCH alike. *)
Theorem price_rejects_non_positive (p : float) :
  match p with
  | S754_finite false _ _ => False
  | _ => True
  end ->
  Beverage_price p = inl InvalidPrice
  /\ price_constraints p = false
  /\ forall n s,
       BeverageUpdate_validate (mkBeverageUpdate n s (Some p)) <> inr
         (mkBeverageUpdate n s (Some p)).
Proof.
  intros Hp.
  assert (Hc : price_constraints p = false).
  { unfold price_constraints, fgt, fle, f0, SFltb, SFleb.
    rewrite f100_eq.
    destruct p as [[]|[]| |[] m e]; try contradiction; reflexivity. }
  split; [|split; [exact Hc|]].
  - unfold Beverage_price. now rewrite Hc.
  - intros n s E.
    destruct (BeverageUpdate_validate_inr _ _ E) as (_ & _ & _ & H).
    specialize (H p eq_refl). unfold Beverage_price in H.
    rewrite Hc in H. discriminate.
Qed.

Lemma price_rejects_non_positive_witness :
  Beverage_price S754_nan = inl InvalidPrice
  /\ price_constraints S754_nan = false
  /\ forall n s,
       BeverageUpdate_validate (mkBeverageUpdate n s (Some S754_nan)) <> inr
         (mkBeverageUpdate n s (Some S754_nan)).
Proof. apply (price_rejects_non_positive S754_nan). exact I. Defined.

(* ================================================================== *)
(** * What create and replace answer *)

(** X20.  The answer of create tells the three cases apart: a created
    record means the body was accepted and no record had its name up to
    case, and the record is the validated body under the counter's
    value, appended last; the conflict means the body was accepted and
    some record has its name up to case; field errors mean the model
    refused the body; the not-found error never comes.  Only the first
    case changes the store. *)
Theorem create_answer (c : Beverage) (st : store) :
  match fst (create c st) with
  | Ok r =>
      exists b,
        Beverage_validate c = inr b
        /\ (forall x, In x (beverages_db st) ->
                      lower (name x) <> lower (bev_name b))
        /\ r = record_of (next_id st) b
        /\ snd (create c st)
           = mkStore (beverages_db st ++ [r]) (next_id st + 1)
  | Err ConflictError =>
      (exists b x,
          Beverage_validate c = inr b /\ In x (beverages_db st)
          /\ lower (name x) = lower (bev_name b))
      /\ snd (create c st) = st
  | Err (ValidationError es) =>
      Beverage_validate c = inl es /\ snd (create c st) = st
  | Err NotFoundError => False
  end.
Proof.
  unfold create, with_model, add_beverage.
  destruct (Beverage_validate c) as [es|b]; simpl; [auto|].
  destruct (existsb _ (beverages_db st)) eqn:Hex; simpl.
  - split; [|reflexivity].
    apply existsb_exists in Hex as (x & Hx & E). apply str_eqb_eq in E.
    now exists b, x.
  - exists b. repeat split; auto.
    intros x Hx. rewrite existsb_false_iff in Hex.
    specialize (Hex x Hx). now apply str_eqb_neq in Hex.
Qed.

(** X21.  Replacing a record of the collection by an accepted body whose
    name, up to case, is the name of a record with another identifier is
    refused with the conflict, and the store stays as it was. *)
Theorem replace_duplicate_name (st : store) (r o : BeverageResponse)
    (c b : Beverage) :
  In r (beverages_db st) ->
  In o (beverages_db st) ->
  id o <> id r ->
  Beverage_validate c = inr b ->
  lower (name o) = lower (strip (bev_name c)) ->
  replace (id r) c st = (Err ConflictError, st).
Proof.
  intros Hr Ho Hne Hval Hname.
  unfold replace, with_model. rewrite Hval. unfold update_beverage.
  destruct (find_id_holds (id r) st) as (k & x & Hf); [now exists r|].
  rewrite Hf.
  assert (Hex : existsb (fun other =>
                           negb (id other =? id r)
                           && str_eqb (lower (name other))
                                      (lower (bev_name b)))
                        (beverages_db st) = true).
  { apply existsb_exists. exists o. split; [exact Ho|].
    apply andb_true_iff. split.
    - apply negb_true_iff. now apply Z.eqb_neq.
    - apply str_eqb_eq. now rewrite (validated_name _ _ Hval). }
  now rewrite Hex.
Qed.

Lemma replace_duplicate_name_witness :
  replace 2 (mkBeverage (py " latte") (py "large") (dec 4 1)) two_drinks
  = (Err ConflictError, two_drinks).
Proof.
  apply (replace_duplicate_name two_drinks
           (mkResponse 2 (py "Mocha") (py "large") (dec 4 1))
           (mkResponse 1 (py "Latte") (py "small") (dec 5 2))
           (mkBeverage (py " latte") (py "large") (dec 4 1))
           (mkBeverage (py "latte") (py "large") (dec 4 1))).
  - vm_compute. right. left. reflexivity.
  - vm_compute. left. reflexivity.
  - discriminate.
  - vm_compute. reflexivity.
  - vm_compute. reflexivity.
Defined.

(* ================================================================== *)
(** * More on listing *)

Lemma filter_all_false {A : Type} (p : A -> bool) (l : list A) :
  (forall a, In a l -> p a = false) -> filter p l = [].
Proof.
  induction l as [|a l IH]; simpl; intros H; [reflexivity|].
  rewrite (H a) by now left. apply IH. intros x Hx. apply H. now right.
Qed.

Lemma get_menu_app (size_ : option str) (lo hi : option float)
    (db1 db2 : list BeverageResponse) (n1 n2 : Z) :
  get_menu size_ lo hi (mkStore (db1 ++ db2) n1)
  = get_menu size_ lo hi (mkStore db1 n2)
    ++ get_menu size_ lo hi (mkStore db2 n2).
Proof.
  unfold get_menu. cbn [beverages_db].
  destruct size_ as [s|]; [destruct (truthy s)|];
    destruct lo, hi; now rewrite ?filter_app.
Qed.

Lemma get_menu_one (size_ : option str) (lo hi : option float)
    (r : BeverageResponse) (n : Z) :
  get_menu size_ lo hi (mkStore [r] n)
  = if satisfies (given_size size_) lo hi r then [r] else [].
Proof.
  unfold get_menu, satisfies, given_size, passes. cbn [beverages_db].
  destruct size_ as [s|]; [destruct (truthy s)|]; destruct lo, hi; simpl;
    repeat match goal with
           | |- context [if ?b then _ else _] => destruct b; simpl
           end; reflexivity.
Qed.

(** X22.  After a create that succeeded, every listing is the listing
    from before, followed by the new record when it passes the
    filters. *)
Theorem list_after_create (st st' : store) (c : Beverage)
    (r : BeverageResponse) (size_ : option str) (lo hi : option float) :
  create c st = (Ok r, st') ->
  list_ size_ lo hi st'
  = list_ size_ lo hi st
    ++ (if satisfies (given_size size_) lo hi r then [r] else []).
Proof.
  intros Hc. apply create_Ok_inv in Hc as (b & _ & _ & _ & ->).
  unfold list_.
  rewrite (get_menu_app _ _ _ _ _ _ (next_id st)), get_menu_one.
  now destruct st.
Qed.

Lemma list_after_create_witness :
  list_ (Some (py "large")) None None two_drinks
  = list_ (Some (py "large")) None None one_drink
    ++ (if satisfies (given_size (Some (py "large"))) None None
             (mkResponse 2 (py "Mocha") (py "large") (dec 4 1))
        then [mkResponse 2 (py "Mocha") (py "large") (dec 4 1)] else []).
Proof.
  apply (list_after_create one_drink two_drinks mocha).
  vm_compute. reflexivity.
Defined.

(** X23.  A price bound that is NaN empties the listing, whatever the
    other filters and the store. *)
Theorem list_nan_bound (st : store) (size_ : option str)
    (lo hi : option float) :
  list_ size_ (Some S754_nan) hi st = []
  /\ list_ size_ lo (Some S754_nan) st = [].
Proof.
  unfold list_, get_menu. split.
  - rewrite (filter_all_false (fun b => fge (price b) S754_nan));
      [now destruct hi|reflexivity].
  - apply filter_all_false. intros b _. unfold fle, SFleb.
    now destruct (price b) as [[]|[]| |[] m e].
Qed.

(** X24.  The size filter compares exactly: where every size of the
    collection is one of the three, a non-empty filter value that is
    none of them, such as a size in capitals, lists nothing. *)
Theorem list_unknown_size (st : store) (s : str) (lo hi : option float) :
  sizes_valid st ->
  truthy s = true ->
  size_constraints s = false ->
  list_ (Some s) lo hi st = [].
Proof.
  intros Hst Ht Hs. unfold list_, get_menu. rewrite Ht.
  rewrite (filter_all_false (fun b => str_eqb (size b) s)).
  - now destruct lo, hi.
  - intros b Hb. unfold sizes_valid in Hst. rewrite Forall_forall in Hst.
    specialize (Hst b Hb). apply str_eqb_neq. intros E. congruence.
Qed.

Lemma list_unknown_size_witness :
  list_ (Some (py "Large")) None None two_drinks = [].
Proof.
  apply (list_unknown_size two_drinks).
  - vm_compute. repeat constructor.
  - reflexivity.
  - vm_compute. reflexivity.
Defined.

(* ================================================================== *)
(** * Composing requests *)

(** X25.  With distinct identifiers and distinct names, deleting a
    record frees its name: an accepted body with that name, in any
    casing, is then created. *)
Theorem delete_frees_name (st : store) (r : BeverageResponse)
    (c b : Beverage) :
  ids_unique st ->
  names_unique st ->
  In r (beverages_db st) ->
  Beverage_validate c = inr b ->
  lower (bev_name b) = lower (name r) ->
  fst (create c (snd (delete (id r) st)))
  = Ok (record_of (next_id st) b).
Proof.
  intros Hid Hu Hin Hval Hname.
  destruct (find_id_record st r Hid Hin) as (k & Hf & Hk).
  unfold delete, delete_beverage. rewrite Hf. cbn [snd].
  unfold create, with_model. rewrite Hval. unfold add_beverage.
  cbn [beverages_db next_id].
  assert (Hex : existsb (fun existing =>
                           str_eqb (lower (name existing))
                                   (lower (bev_name b)))
                        (list_pop k (beverages_db st)) = false).
  { apply existsb_false_iff. intros x Hx.
    apply In_list_pop_iff in Hx as (j & Hne & Hj).
    apply str_eqb_neq. rewrite Hname.
    exact (NoDup_map_nth_neq (fun y => lower (name y)) _ _ _ _ _
             Hu Hk Hj Hne). }
  now rewrite Hex.
Qed.

Lemma delete_frees_name_witness :
  fst (create (mkBeverage (py "LATTE") (py "large") (dec 6 1))
              (snd (delete 1 two_drinks)))
  = Ok (record_of 3 (mkBeverage (py "LATTE") (py "large") (dec 6 1))).
Proof.
  apply (delete_frees_name two_drinks
           (mkResponse 1 (py "Latte") (py "small") (dec 5 2))
           (mkBeverage (py "LATTE") (py "large") (dec 6 1))
           (mkBeverage (py "LATTE") (py "large") (dec 6 1))).
  - vm_compute. repeat constructor; simpl; intuition discriminate.
  - vm_compute. repeat constructor; simpl; intuition discriminate.
  - vm_compute. left. reflexivity.
  - vm_compute. reflexivity.
  - vm_compute. reflexivity.
Defined.

Lemma find_id_list_set (beverage_id : Z) (k : nat) (x0 x : BeverageResponse)
    (l : list BeverageResponse) :
  find_id beverage_id l = Some (k, x0) -> id x = beverage_id ->
  find_id beverage_id (list_set k x l) = Some (k, x).
Proof.
  revert k. induction l as [|a l IH]; simpl; intros k; [discriminate|].
  destruct (Z.eqb_spec (id a) beverage_id) as [E|E].
  - intros H Hx. inversion H. subst k x0. simpl.
    now rewrite Hx, Z.eqb_refl.
  - destruct (find_id beverage_id l) as [[j y]|] eqn:Hf; [|discriminate].
    intros H Hx. inversion H. subst k x0. simpl.
    destruct (Z.eqb_spec (id a) beverage_id) as [E'|_]; [contradiction|].
    now rewrite (IH j eq_refl Hx).
Qed.

Lemma list_set_twice {A : Type} (k : nat) (x y : A) (l : list A) :
  list_set k x (list_set k y l) = list_set k x l.
Proof.
  revert k. induction l as [|a l IH]; intros [|k]; simpl; auto.
  now rewrite IH.
Qed.

Lemma existsb_list_set {A : Type} (p : A -> bool) (k : nat) (x : A)
    (l : list A) :
  existsb p l = false -> p x = false -> existsb p (list_set k x l) = false.
Proof.
  rewrite !existsb_false_iff. intros Hl Hx y Hy.
  apply In_list_set in Hy as [->|Hy]; auto.
Qed.

(** X26.  A replace that succeeded can be repeated: the same request on
    the store it left is answered with the same record and leaves that
    store as it is. *)
Theorem replace_twice (st : store) (beverage_id : Z) (c : Beverage)
    (r : BeverageResponse) :
  fst (replace beverage_id c st) = Ok r ->
  replace beverage_id c (snd (replace beverage_id c st))
  = (Ok r, snd (replace beverage_id c st)).
Proof.
  unfold replace, with_model.
  destruct (Beverage_validate c) as [es|b]; [discriminate|].
  unfold update_beverage.
  destruct (find_id beverage_id (beverages_db st)) as [[k x]|] eqn:Hf;
    [|discriminate].
  destruct (existsb _ (beverages_db st)) eqn:Hex; [discriminate|].
  cbn [fst snd beverages_db next_id]. intros E. inversion E. subst r.
  rewrite (find_id_list_set beverage_id k x
             (mkResponse beverage_id (bev_name b) (bev_size b) (bev_price b))
             _ Hf eq_refl).
  rewrite existsb_list_set; [|exact Hex|].
  - now rewrite list_set_twice.
  - simpl. now rewrite Z.eqb_refl.
Qed.

Lemma replace_twice_witness :
  replace 2 flat_white (snd (replace 2 flat_white two_drinks))
  = (Ok (mkResponse 2 (py "Flat White") (py "medium") (dec 7 2)),
     snd (replace 2 flat_white two_drinks)).
Proof.
  apply (replace_twice two_drinks 2 flat_white).
  vm_compute. reflexivity.
Defined.
